(** * The map scale indicator of [WelcomeScreen.tsx]

    The welcome screen draws a scale bar under the map: from the latitude
    of the map's centre, the longitude span of the viewport and the width
    of the window it derives how many meters one pixel covers, picks a
    round distance from a fixed list and sizes the bar for it
    (lines 215-230), then prints the distance next to the bar (line 322).

    Numbers in the source are JavaScript numbers.  The arithmetic the
    scale code uses is collected in the class [JsNumber], and the
    selection loop is written once, over the class.  The class is read
    in three ways:
    - [float], IEEE 754 binary64, which is what runs and what evaluates
      here ([Module Binary64]); of [Math.cos] it has the values ECMAScript
      fixes and no others ([Module Viewport64]);
    - [xreal], real numbers closed under the two infinities and NaN, with
      no rounding, no overflow and a single zero ([Module Exact]).  It is
      used for what rounding cannot change: values that are exact in
      binary64 too, the clamp, divisions by zero and of zero, and which
      state cells a callback writes;
    - [xreal] with a division that rounds ([Module Rounded]), for the
      selection, where the rounding of a quotient next to a threshold
      decides the candidate. *)

From Stdlib Require Import ZArith QArith Qround Qabs Reals Lra Lia List Bool String.
From Stdlib Require Import DecimalString Sorting.Sorted.
From Stdlib Require Import Floats.
Import ListNotations.

Set Implicit Arguments.

(** ** Numbers *)

Class JsNumber (T : Type) : Type := {
  lit  : Z -> T;             (* an integer literal, or an integer-valued variable *)
  ndiv : T -> T -> T;        (* a / b *)
  nle  : T -> T -> bool;     (* a <= b *)
  nlt  : T -> T -> bool;     (* a < b *)
  nmax : T -> T -> T;        (* Math.max(a, b) *)
  nmin : T -> T -> T         (* Math.min(a, b) *)
}.

(** [a >= b] holds exactly when [b <= a] does; both are false on NaN. *)
Definition nge {T} `{JsNumber T} (a b : T) : bool := nle b a.

Module Binary64.

(** Integer literals of the source are far below 2^53 and so exact. *)
Definition of_Z (z : Z) : float :=
  match z with
  | Z0 => PrimFloat.zero
  | Zpos _ => PrimFloat.of_uint63 (Uint63.of_Z z)
  | Zneg p => PrimFloat.opp (PrimFloat.of_uint63 (Uint63.of_Z (Zpos p)))
  end.

(** [Math.max]: NaN if either argument is NaN, and +0 counts as larger
    than -0. *)
Definition max (a b : float) : float :=
  if PrimFloat.is_nan a || PrimFloat.is_nan b then PrimFloat.nan
  else if PrimFloat.ltb a b then b
  else if PrimFloat.ltb b a then a
  else if PrimFloat.get_sign a then b else a.

(** [Math.min]: NaN if either argument is NaN, and -0 counts as smaller
    than +0. *)
Definition min (a b : float) : float :=
  if PrimFloat.is_nan a || PrimFloat.is_nan b then PrimFloat.nan
  else if PrimFloat.ltb a b then a
  else if PrimFloat.ltb b a then b
  else if PrimFloat.get_sign a then a else b.

#[global] Instance float_number : JsNumber float := {
  lit := of_Z;
  ndiv := PrimFloat.div;
  nle := PrimFloat.leb;
  nlt := PrimFloat.ltb;
  nmax := max;
  nmin := min
}.

End Binary64.

Module Exact.

(** Real numbers closed under what JavaScript arithmetic can return.
    Products and quotients are exact: they do not round, and a finite
    product never overflows.  There is one zero; where the sign of a zero
    would matter (a division by it) it is read as +0. *)
Inductive xreal : Type :=
| Fin (x : R)
| PInf
| NInf
| NaN.

Definition Rleb (a b : R) : bool := if Rle_dec a b then true else false.
Definition Rltb (a b : R) : bool := if Rlt_dec a b then true else false.

(** The infinity a nonzero finite [x] selects: [up] for positive [x], the
    opposite for negative [x]; NaN for zero. *)
Definition by_sign (x : R) (up down : xreal) : xreal :=
  if Rltb 0 x then up else if Rltb x 0 then down else NaN.

Definition xmul (a b : xreal) : xreal :=
  match a, b with
  | NaN, _ | _, NaN => NaN
  | Fin x, Fin y => Fin (x * y)
  | Fin x, PInf | PInf, Fin x => by_sign x PInf NInf
  | Fin x, NInf | NInf, Fin x => by_sign x NInf PInf
  | PInf, PInf | NInf, NInf => PInf
  | PInf, NInf | NInf, PInf => NInf
  end.

Definition xdiv (a b : xreal) : xreal :=
  match a, b with
  | NaN, _ | _, NaN => NaN
  | Fin x, Fin y => if Req_dec_T y 0 then by_sign x PInf NInf else Fin (x / y)
  | Fin _, (PInf | NInf) => Fin 0
  | PInf, Fin y => if Rleb 0 y then PInf else NInf
  | NInf, Fin y => if Rleb 0 y then NInf else PInf
  | (PInf | NInf), (PInf | NInf) => NaN
  end.

Definition xle (a b : xreal) : bool :=
  match a, b with
  | NaN, _ | _, NaN => false
  | Fin x, Fin y => Rleb x y
  | NInf, _ | _, PInf => true
  | _, NInf | PInf, _ => false
  end.

Definition xlt (a b : xreal) : bool :=
  match a, b with
  | NaN, _ | _, NaN => false
  | Fin x, Fin y => Rltb x y
  | PInf, _ | _, NInf => false
  | NInf, _ | _, PInf => true
  end.

Definition xmax (a b : xreal) : xreal :=
  match a, b with
  | NaN, _ | _, NaN => NaN
  | _, _ => if xle a b then b else a
  end.

Definition xmin (a b : xreal) : xreal :=
  match a, b with
  | NaN, _ | _, NaN => NaN
  | _, _ => if xle a b then a else b
  end.

(** [Math.cos]: NaN at NaN and at the infinities, the real cosine
    elsewhere, which [Math.cos] only approximates. *)
Definition xcos (a : xreal) : xreal :=
  match a with
  | Fin x => Fin (cos x)
  | _ => NaN
  end.

#[global] Instance xreal_number : JsNumber xreal := {
  lit := fun z => Fin (IZR z);
  ndiv := xdiv;
  nle := xle;
  nlt := xlt;
  nmax := xmax;
  nmin := xmin
}.

End Exact.

(** ** Meters per pixel (lines 215-221) *)

(** [Region] of react-native-maps: the centre of the viewport and its
    spans, in degrees. *)
Record Region (T : Type) : Type := {
  latitude : T;
  longitude : T;
  latitudeDelta : T;
  longitudeDelta : T
}.

Section MetersPerPixel.

Import Exact.

(** [SCREEN_W] is the window width that [Dimensions.get('window')]
    reported when the module was loaded. *)
Variable SCREEN_W : xreal.
Variable region : Region xreal.

(** [Math.cos((region.latitude * Math.PI) / 180) * 111320] *)
Definition metersPerDegreeLon : xreal :=
  xmul (xcos (xdiv (xmul (latitude region) (Fin PI)) (lit 180))) (lit 111320).

(** [metersPerDegreeLon * region.longitudeDelta] *)
Definition viewportMeters : xreal :=
  xmul metersPerDegreeLon (longitudeDelta region).

(** [viewportMeters / SCREEN_W] *)
Definition metersPerPixel : xreal := xdiv viewportMeters SCREEN_W.

End MetersPerPixel.

(** ** The scale computation (lines 223-230) *)

(** [const niceScales = [10, 20, 50, 100, 200, 500, 1000, 2000]] *)
Definition niceScales : list Z := [10; 20; 50; 100; 200; 500; 1000; 2000]%Z.

Section Scale.

Context {T : Type} `{JsNumber T}.

(** The value of the constant [metersPerPixel]. *)
Variable mpp : T.

(** [const px = m / metersPerPixel] *)
Definition px (m : Z) : T := ndiv (lit m) mpp.

(** [px >= 60 && px <= 160] *)
Definition readable (p : T) : bool := nge p (lit 60) && nle p (lit 160).

(** [px < 60] *)
Definition short (p : T) : bool := nlt p (lit 60).

(** The [for ... of] loop over the candidates still to visit, with the
    current value of the variable [scaleMeters]; [break] ends it. *)
Fixpoint scan (ms : list Z) (scaleMeters : Z) : Z :=
  match ms with
  | [] => scaleMeters
  | m :: rest =>
      if readable (px m) then m
      else if short (px m) then scan rest m
      else scan rest scaleMeters
  end.

(** [let scaleMeters = niceScales[0]; for (const m of niceScales) ...] *)
Definition scaleMeters : Z := scan niceScales (nth 0 niceScales 0%Z).

(** [Math.max(40, Math.min(200, scaleMeters / metersPerPixel))] *)
Definition scalePx : T :=
  nmax (lit 40) (nmin (lit 200) (ndiv (lit scaleMeters) mpp)).

End Scale.

(** ** The label (line 322) *)

(** [`${n}`] for an integer-valued number: its decimal digits, with a
    minus sign when negative.  (Below 1e21, where JavaScript switches to
    exponent notation.) *)
Definition toString (n : Z) : string := NilZero.string_of_int (Z.to_int n).

(** [x.toFixed(1)] on an exact value: the integer [n] with [n / 10]
    closest to [x], the larger one on a tie, printed with a point before
    its last digit; a negative [x] is printed as its opposite after a
    minus sign.  (Below 1e21, as for [toString].) *)
Definition toFixed1 (x : Q) : string :=
  let n := Qfloor (Qabs x * 10 + (1 # 2))%Q in
  ((if Qlt_le_dec x 0 then "-" else "")
     ++ toString (n / 10) ++ "." ++ toString (n mod 10))%string.

(** [scaleMeters >= 1000 ? `${(scaleMeters/1000).toFixed(1)} km`
                        : `${scaleMeters} m`].
    [scaleMeters] only ever holds one of the integers of [niceScales];
    on those that reach the first branch the quotient by 1000 is exact in
    binary64 as well. *)
Definition scaleTxt (scaleMeters : Z) : string :=
  if (1000 <=? scaleMeters)%Z
  then (toFixed1 (inject_Z scaleMeters / 1000)%Q ++ " km")%string
  else (toString scaleMeters ++ " m")%string.

(** ** The component *)

(** The values the scale indicator shows: the width of [styles.scaleBar]
    and the text under it, with the distance the text is printed from. *)
Record ScaleIndicator (T : Type) : Type := {
  distance : Z;
  barWidth : T;
  text : string
}.

(** The map types the first chip cycles through. *)
Inductive MapType : Type := standard | satellite | terrain | hybrid.

Section Component.

Import Exact.

(** [Marker] of [MarkersContext], which is not part of this file. *)
Variable ReportMarker : Type.

(** What a render of [WelcomeScreen] reads: its [useState] cells and the
    markers of the context. *)
Record ScreenState : Type := {
  region : option (Region xreal);
  loading : bool;
  selected : option ReportMarker;
  markers : list ReportMarker;
  imageSize : xreal * xreal;
  mapType : MapType;
  traffic : bool;
  pois : bool;
  follow : bool;
  tempPin : option (xreal * xreal);
  fabOpen : bool
}.

Variable SCREEN_W : xreal.

(** The scale indicator of one render: none while
    [if (!region || loading)] returns the loader. *)
Definition scaleIndicator (s : ScreenState) : option (ScaleIndicator xreal) :=
  match region s with
  | None => None
  | Some r =>
      if loading s then None
      else
        let mpp := metersPerPixel SCREEN_W r in
        Some {| distance := scaleMeters mpp;
                barWidth := scalePx mpp;
                text := scaleTxt (scaleMeters mpp) |}
  end.

End Component.

(** ** Sample inputs *)

Section Samples.

Import Exact.

(** The viewport the screen starts with, [latitudeDelta: 0.01,
    longitudeDelta: 0.01], centred on the equator. *)
Definition equator_view : Region xreal :=
  {| latitude := Fin 0; longitude := Fin 0;
     latitudeDelta := Fin 0.01; longitudeDelta := Fin 0.01 |}.

End Samples.

(** ** The map style (lines 35-55) *)

(** A rule of the Google Maps style array.  [featureType] and
    [elementType] are absent from some rules; each styler is an object
    with one property, kept as the pair of its key and value. *)
Record StyleRule : Type := {
  featureType : option string;
  elementType : option string;
  stylers : list (string * string)
}.

Definition MAP_STYLE_BASE : list StyleRule :=
  [ {| featureType := None; elementType := Some "geometry"%string;
       stylers := [("color", "#F5F7FA")%string] |};
    {| featureType := None; elementType := Some "labels.icon"%string;
       stylers := [("visibility", "off")%string] |};
    {| featureType := None; elementType := Some "labels.text.fill"%string;
       stylers := [("color", "#2D3748")%string] |};
    {| featureType := None; elementType := Some "labels.text.stroke"%string;
       stylers := [("color", "#FFFFFF")%string] |};
    {| featureType := Some "poi"%string; elementType := None;
       stylers := [("visibility", "off")%string] |};
    {| featureType := Some "transit"%string; elementType := None;
       stylers := [("visibility", "off")%string] |};
    {| featureType := Some "water"%string; elementType := Some "geometry"%string;
       stylers := [("color", "#A6CBE3")%string] |};
    {| featureType := Some "road"%string; elementType := Some "geometry"%string;
       stylers := [("color", "#FFFFFF")%string] |};
    {| featureType := Some "road"%string;
       elementType := Some "geometry.stroke"%string;
       stylers := [("color", "#D6DBE0")%string] |};
    {| featureType := Some "poi.park"%string;
       elementType := Some "geometry"%string;
       stylers := [("color", "#E4F3E8")%string] |} ].

(** [s.featureType === 'poi'] *)
Definition isPoi (s : StyleRule) : bool :=
  match featureType s with
  | Some f => String.eqb f "poi"
  | None => false
  end.

(** [s => s.featureType === 'poi'
          ? { ...s, stylers: [{ visibility: show ? 'on' : 'off' }] } : s] *)
Definition poiRule (show : bool) (s : StyleRule) : StyleRule :=
  if isPoi s
  then {| featureType := featureType s;
          elementType := elementType s;
          stylers := [("visibility", if show then "on" else "off")%string] |}
  else s.

(** [withPOIs = (show) => MAP_STYLE_BASE.map(...)] *)
Definition withPOIs (show : bool) : list StyleRule :=
  map (poiRule show) MAP_STYLE_BASE.

(** ** The map type chip (lines 290-298) *)

Section Arrays.

Variable A : Type.
Variable eqb : A -> A -> bool.

(** [l.indexOf(x)], searching from position [i]: the position of the
    first element equal to [x], or -1. *)
Fixpoint indexOf_from (l : list A) (x : A) (i : Z) : Z :=
  match l with
  | [] => (-1)%Z
  | y :: rest => if eqb y x then i else indexOf_from rest x (i + 1)
  end.

Definition indexOf (l : list A) (x : A) : Z := indexOf_from l x 0.

(** [l[k]] for an integer [k]: undefined outside the array. *)
Definition at_index (l : list A) (k : Z) : option A :=
  if (k <? 0)%Z then None else nth_error l (Z.to_nat k).

(** [order[(order.indexOf(x) + 1) % order.length]]; the remainder of
    JavaScript has the sign of the dividend, which is never negative
    here. *)
Definition nextIn (order : list A) (x : A) : option A :=
  at_index order (Z.rem (indexOf order x + 1) (Z.of_nat (List.length order))).

End Arrays.

(** [===] on the map types. *)
Definition MapType_eqb (a b : MapType) : bool :=
  match a, b with
  | standard, standard | satellite, satellite
  | terrain, terrain | hybrid, hybrid => true
  | _, _ => false
  end.

(** [const order: MapType[] = ['standard', 'satellite', 'terrain', 'hybrid']] *)
Definition order : list MapType := [standard; satellite; terrain; hybrid].

Definition nextMapType (mapType : MapType) : option MapType :=
  nextIn MapType_eqb order mapType.

(** The label of the chip. *)
Definition mapTypeLabel (mapType : MapType) : string :=
  match mapType with
  | standard => "Mapa"
  | satellite => "Satélite"
  | terrain => "Terreno"
  | _ => "Híbrido"
  end.

(** ** Events (lines 80-207) *)

Section Events.

Import Exact.

(** [a - b] in the exact reading. *)
Definition xsub (a b : xreal) : xreal :=
  match a, b with
  | NaN, _ | _, NaN => NaN
  | Fin x, Fin y => Fin (x - y)
  | PInf, PInf | NInf, NInf => NaN
  | PInf, _ | _, NInf => PInf
  | NInf, _ | _, PInf => NInf
  end.

Variable SCREEN_W : xreal.

(** The callback of [Image.getSize] (lines 152-156): the size given to
    an image of [w] by [h] pixels, with the exact difference and
    quotients. *)
Definition fitImage (w h : xreal) : xreal * xreal :=
  let screenWidth := xsub SCREEN_W (lit 32) in
  let scaleFactor := xdiv w screenWidth in
  (screenWidth, xdiv h scaleFactor).

Variable ReportMarker : Type.

Definition State : Type := ScreenState ReportMarker.

(** The state of the first render, over the markers of the context. *)
Definition initialState (ms : list ReportMarker) : State :=
  {| region := None; loading := true; selected := None; markers := ms;
     imageSize := (lit 0, lit 0); mapType := standard;
     traffic := false; pois := false; follow := true; tempPin := None;
     fabOpen := false |}.

Definition setRegion (r : option (Region xreal)) (s : State) : State :=
  {| region := r; loading := loading s; selected := selected s;
     markers := markers s; imageSize := imageSize s; mapType := mapType s;
     traffic := traffic s; pois := pois s; follow := follow s;
     tempPin := tempPin s; fabOpen := fabOpen s |}.

Definition setLoading (b : bool) (s : State) : State :=
  {| region := region s; loading := b; selected := selected s;
     markers := markers s; imageSize := imageSize s; mapType := mapType s;
     traffic := traffic s; pois := pois s; follow := follow s;
     tempPin := tempPin s; fabOpen := fabOpen s |}.

Definition setSelected (m : option ReportMarker) (s : State) : State :=
  {| region := region s; loading := loading s; selected := m;
     markers := markers s; imageSize := imageSize s; mapType := mapType s;
     traffic := traffic s; pois := pois s; follow := follow s;
     tempPin := tempPin s; fabOpen := fabOpen s |}.

Definition setMarkers (ms : list ReportMarker) (s : State) : State :=
  {| region := region s; loading := loading s; selected := selected s;
     markers := ms; imageSize := imageSize s; mapType := mapType s;
     traffic := traffic s; pois := pois s; follow := follow s;
     tempPin := tempPin s; fabOpen := fabOpen s |}.

Definition setImageSize (size : xreal * xreal) (s : State) : State :=
  {| region := region s; loading := loading s; selected := selected s;
     markers := markers s; imageSize := size; mapType := mapType s;
     traffic := traffic s; pois := pois s; follow := follow s;
     tempPin := tempPin s; fabOpen := fabOpen s |}.

Definition setMapType (t : MapType) (s : State) : State :=
  {| region := region s; loading := loading s; selected := selected s;
     markers := markers s; imageSize := imageSize s; mapType := t;
     traffic := traffic s; pois := pois s; follow := follow s;
     tempPin := tempPin s; fabOpen := fabOpen s |}.

Definition setTraffic (b : bool) (s : State) : State :=
  {| region := region s; loading := loading s; selected := selected s;
     markers := markers s; imageSize := imageSize s; mapType := mapType s;
     traffic := b; pois := pois s; follow := follow s;
     tempPin := tempPin s; fabOpen := fabOpen s |}.

Definition setPois (b : bool) (s : State) : State :=
  {| region := region s; loading := loading s; selected := selected s;
     markers := markers s; imageSize := imageSize s; mapType := mapType s;
     traffic := traffic s; pois := b; follow := follow s;
     tempPin := tempPin s; fabOpen := fabOpen s |}.

Definition setFollow (b : bool) (s : State) : State :=
  {| region := region s; loading := loading s; selected := selected s;
     markers := markers s; imageSize := imageSize s; mapType := mapType s;
     traffic := traffic s; pois := pois s; follow := b;
     tempPin := tempPin s; fabOpen := fabOpen s |}.

Definition setTempPin (p : option (xreal * xreal)) (s : State) : State :=
  {| region := region s; loading := loading s; selected := selected s;
     markers := markers s; imageSize := imageSize s; mapType := mapType s;
     traffic := traffic s; pois := pois s; follow := follow s;
     tempPin := p; fabOpen := fabOpen s |}.

Definition setFabOpen (b : bool) (s : State) : State :=
  {| region := region s; loading := loading s; selected := selected s;
     markers := markers s; imageSize := imageSize s; mapType := mapType s;
     traffic := traffic s; pois := pois s; follow := follow s;
     tempPin := tempPin s; fabOpen := b |}.

(** [{ latitude: coords.latitude, longitude: coords.longitude,
       latitudeDelta: 0.01, longitudeDelta: 0.01 }] *)
Definition firstRegion (lat lon : xreal) : Region xreal :=
  {| latitude := lat; longitude := lon;
     latitudeDelta := Fin 0.01; longitudeDelta := Fin 0.01 |}.

(** The updater of [watchPosition] (lines 119-123):
    [prev ? { ...prev, latitude, longitude } : { ..., 0.01, 0.01 }]. *)
Definition watchedRegion (lat lon : xreal) (prev : option (Region xreal))
  : Region xreal :=
  match prev with
  | Some p => {| latitude := lat; longitude := lon;
                 latitudeDelta := latitudeDelta p;
                 longitudeDelta := longitudeDelta p |}
  | None => firstRegion lat lon
  end.

(** [next] of [handleRecenter] (lines 169-174), over the [region] its
    closure holds: [region?.latitudeDelta ?? 0.01] and the same for the
    longitude. *)
Definition recenteredRegion (lat lon : xreal) (held : option (Region xreal))
  : Region xreal :=
  {| latitude := lat; longitude := lon;
     latitudeDelta := match held with
                      | Some p => latitudeDelta p
                      | None => Fin 0.01
                      end;
     longitudeDelta := match held with
                       | Some p => longitudeDelta p
                       | None => Fin 0.01
                       end |}.

(** What can happen to the component: the callbacks that write a state
    cell, each with the values it receives.  [RecenterFix] carries the
    [region] held by the closure of [handleRecenter] that asked for the
    position. *)
Inductive Event : Type :=
| LocationUnavailable
| PositionFix (lat lon : xreal)
| PositionWatch (lat lon : xreal)
| RecenterPressed
| RecenterFix (held : option (Region xreal)) (lat lon : xreal)
| RegionWillChange
| LongPress (lat lon : xreal)
| FabToggled
| MapChipPressed
| TrafficChipPressed
| PoisChipPressed
| MarkerPressed (m : ReportMarker)
| PanelClosed
| ImageSized (w h : xreal)
| MarkersChanged (ms : list ReportMarker).

Definition handle (e : Event) (s : State) : State :=
  match e with
  | LocationUnavailable => setLoading false s
  | PositionFix lat lon =>
      setLoading false (setRegion (Some (firstRegion lat lon)) s)
  | PositionWatch lat lon =>
      setRegion (Some (watchedRegion lat lon (region s))) s
  | RecenterPressed => setFollow true s
  | RecenterFix held lat lon =>
      setRegion (Some (recenteredRegion lat lon held)) s
  | RegionWillChange => if follow s then setFollow false s else s
  | LongPress lat lon => setTempPin (Some (lat, lon)) s
  | FabToggled => setFabOpen (negb (fabOpen s)) s
  | MapChipPressed =>
      match nextMapType (mapType s) with
      | Some t => setMapType t s
      | None => s
      end
  | TrafficChipPressed => setTraffic (negb (traffic s)) s
  | PoisChipPressed => setPois (negb (pois s)) s
  | MarkerPressed m => setSelected (Some m) s
  | PanelClosed => setSelected None s
  | ImageSized w h => setImageSize (fitImage w h) s
  | MarkersChanged ms => setMarkers ms s
  end.

(** The states the component can be in.  The position asked for by
    [handleRecenter] arrives later, with the [region] of the render in
    which the button was pressed: any state reached so far. *)
Inductive Reachable (ms : list ReportMarker) : State -> Prop :=
| reach_initial : Reachable ms (initialState ms)
| reach_event (e : Event) (s : State) :
    Reachable ms s ->
    (forall held lat lon, e <> RecenterFix held lat lon) ->
    Reachable ms (handle e s)
| reach_recenter (s0 s : State) (lat lon : xreal) :
    Reachable ms s0 -> Reachable ms s ->
    Reachable ms (handle (RecenterFix (region s0) lat lon) s).

(** The spans of the viewport in the state: both 0.01, or no viewport
    yet. *)
Definition spans_fixed (held : option (Region xreal)) : Prop :=
  forall r, held = Some r ->
            latitudeDelta r = Fin 0.01 /\ longitudeDelta r = Fin 0.01.

(** The state after a sequence of events. *)
Definition run (es : list Event) (s : State) : State :=
  fold_left (fun s e => handle e s) es s.

End Events.

Arguments LocationUnavailable {ReportMarker}.
Arguments PositionFix {ReportMarker} lat lon.
Arguments PositionWatch {ReportMarker} lat lon.
Arguments RecenterPressed {ReportMarker}.
Arguments RecenterFix {ReportMarker} held lat lon.
Arguments RegionWillChange {ReportMarker}.
Arguments LongPress {ReportMarker} lat lon.
Arguments FabToggled {ReportMarker}.
Arguments MapChipPressed {ReportMarker}.
Arguments TrafficChipPressed {ReportMarker}.
Arguments PoisChipPressed {ReportMarker}.
Arguments MarkerPressed {ReportMarker} m.
Arguments PanelClosed {ReportMarker}.
Arguments ImageSized {ReportMarker} w h.
Arguments MarkersChanged {ReportMarker} ms.

(** ** Division that rounds *)

Module Rounded.

Section Rounding.

Import Exact.

(** What the arithmetic does to the exact value of a finite quotient.  In
    binary64 this is rounding to the nearest representable number; the
    theorems on this reading state what they need of it. *)
Variable rnd : R -> R.

Definition rdiv (a b : xreal) : xreal :=
  match xdiv a b with
  | Fin x => Fin (rnd x)
  | q => q
  end.

Definition number : JsNumber xreal := {|
  lit := fun z => Fin (IZR z);
  ndiv := rdiv;
  nle := xle;
  nlt := xlt;
  nmax := xmax;
  nmin := xmin
|}.

End Rounding.

(** A rounding to try the theorems on: down to the nearest integer. *)
Definition round_down (x : R) : R := IZR (Int_part x).

End Rounded.

(** ** Meters per pixel in binary64 *)

Module Viewport64.

(** [Math.PI] *)
Definition PI : float := 0x1.921fb54442d18p+1.

(** [Math.cos], as far as ECMAScript fixes it: NaN at NaN and at the
    infinities, 1 at both zeros.  Elsewhere the result is an
    approximation left to the implementation, and there is none here. *)
Definition cos (x : float) : option float :=
  if PrimFloat.is_nan x || PrimFloat.is_infinity x then Some PrimFloat.nan
  else if PrimFloat.is_zero x then Some PrimFloat.one
  else None.

(** [Math.cos((region.latitude * Math.PI) / 180) * 111320] *)
Definition metersPerDegreeLon (region : Region float) : option float :=
  option_map (fun c => PrimFloat.mul c 111320)
             (cos (PrimFloat.div (PrimFloat.mul (latitude region) PI) 180)).

(** [metersPerDegreeLon * region.longitudeDelta] *)
Definition viewportMeters (region : Region float) : option float :=
  option_map (fun m => PrimFloat.mul m (longitudeDelta region))
             (metersPerDegreeLon region).

(** [viewportMeters / SCREEN_W] *)
Definition metersPerPixel (SCREEN_W : float) (region : Region float)
  : option float :=
  option_map (fun v => PrimFloat.div v SCREEN_W) (viewportMeters region).

End Viewport64.

(** The sign bit of a number that is not NaN: set on the negative
    numbers, on -0 and on -Infinity. *)
Definition sign_bit (x : float) : bool :=
  match Prim2SF x with
  | S754_zero s | S754_infinity s | S754_finite s _ _ => s
  | S754_nan => false
  end.


Unset Implicit Arguments.

(** ** Evaluation in binary64 *)

(** At 1.1132 meters per pixel (the nearest binary64 number, written in
    hexadecimal) the loop stops at 100 and the bar is a little under 90
    pixels long. *)
Example scale_binary64 :
  scaleMeters 0x1.1cfaacd9e83e4p+0%float = 100%Z /\
  scalePx 0x1.1cfaacd9e83e4p+0%float = 0x1.675310773719bp+6%float.
Proof. split; vm_compute; reflexivity. Qed.

(** Far out (100 meters per pixel) every candidate is short: the loop
    ends on 2000 and the bar, 20 pixels long, is widened to 40.  Far in
    (1/128 meter per pixel) every candidate is longer than 160 pixels:
    [scaleMeters] keeps its initial value and the bar is cut to 200.  A
    zero denominator gives infinite pixel lengths, with the same result.
    A NaN passes no test and comes out of the clamp as NaN. *)
Example scale_binary64_extremes :
  (scaleMeters 100%float = 2000%Z /\ scalePx 100%float = 40%float) /\
  (scaleMeters 0x1p-7%float = 10%Z /\ scalePx 0x1p-7%float = 200%float) /\
  (scaleMeters 0%float = 10%Z /\ scalePx 0%float = 200%float) /\
  (scaleMeters PrimFloat.nan = 10%Z /\
   PrimFloat.is_nan (scalePx PrimFloat.nan) = true).
Proof. repeat split; vm_compute; reflexivity. Qed.

(** Two labels on numbers outside the candidate list. *)
Example scaleTxt_other :
  scaleTxt 1250 = "1.3 km"%string /\ scaleTxt 999 = "999 m"%string.
Proof. split; reflexivity. Qed.

(** ** Lists in ascending order *)

Lemma last_indep_cons {A} (x : A) (l : list A) (d d' : A) :
  last (x :: l) d = last (x :: l) d'.
Proof.
  revert x; induction l as [|y l IH]; intros x; [reflexivity|].
  change (last (y :: l) d = last (y :: l) d'). apply IH.
Qed.

Lemma last_In {A} (l : list A) (d : A) : l <> [] -> In (last l d) l.
Proof.
  induction l as [|x l IH]; [congruence|]. intros _.
  destruct l as [|y l]; [now left|].
  right. apply IH. discriminate.
Qed.

Lemma last_cons_default {A} (x : A) (l : list A) (d : A) :
  last (x :: l) d = last l x.
Proof.
  destruct l as [|y l]; [reflexivity|].
  change (last (y :: l) d = last (y :: l) x). apply last_indep_cons.
Qed.

Lemma filter_none {A} (f : A -> bool) (l : list A) :
  (forall x, In x l -> f x = false) -> filter f l = [].
Proof.
  induction l as [|x l IH]; intros Hf; [reflexivity|].
  cbn [filter]. rewrite (Hf x (or_introl eq_refl)).
  apply IH. intros y Hy. apply Hf. now right.
Qed.

(** In a strictly ascending list the last element that passes a test is
    the largest one that does. *)
Lemma last_filter_largest (f : Z -> bool) (l : list Z) (d : Z) :
  StronglySorted Z.lt l ->
  forall m, In m l -> f m = true -> (m <= last (filter f l) d)%Z.
Proof.
  intros S; revert d. induction S as [|x l S IH Hx]; intros d m Hin Hf.
  - destruct Hin.
  - cbn [filter]. destruct Hin as [->|Hin].
    + rewrite Hf. destruct (filter f l) as [|y l'] eqn:E; [cbn; lia|].
      assert (Hl : In (last (y :: l') d) l).
      { assert (Hi : In (last (y :: l') d) (filter f l))
          by (rewrite E; apply last_In; discriminate).
        apply filter_In in Hi. tauto. }
      rewrite Forall_forall in Hx. specialize (Hx _ Hl).
      change (last (m :: y :: l') d) with (last (y :: l') d). lia.
    + destruct (f x).
      * assert (Hne : filter f l <> []).
        { intros E. assert (Hi : In m (filter f l)) by (apply filter_In; auto).
          rewrite E in Hi. destruct Hi. }
        destruct (filter f l) as [|y l'] eqn:E; [congruence|].
        change (last (x :: y :: l') d) with (last (y :: l') d).
        apply IH; auto.
      * apply IH; auto.
Qed.

Lemma niceScales_ascending : StronglySorted Z.lt niceScales.
Proof.
  unfold niceScales.
  repeat (constructor; [|repeat (constructor; try reflexivity)]).
  constructor.
Qed.

(** ** Structure of the loop *)

Section ScanFacts.

Context {T : Type} `{JsNumber T}.
Variable mpp : T.

Lemma scan_In (ms : list Z) (acc : Z) :
  In (scan mpp ms acc) (acc :: ms).
Proof.
  revert acc; induction ms as [|m rest IH]; intros acc; cbn [scan].
  - now left.
  - destruct (readable _).
    + right; now left.
    + destruct (short _).
      * right; exact (IH m).
      * destruct (IH acc) as [E|E]; [now left | right; now right].
Qed.

Lemma scan_cons (m : Z) (rest : list Z) (acc : Z) :
  scan mpp (m :: rest) acc
  = if readable (px mpp m) then m
    else if short (px mpp m) then scan mpp rest m
    else scan mpp rest acc.
Proof. reflexivity. Qed.

(** With a readable candidate in the list, the loop breaks at the first
    one: what precedes it in the list is not readable. *)
Lemma scan_first_readable (ms : list Z) (acc : Z) :
  (exists m, In m ms /\ readable (px mpp m) = true) ->
  exists before after,
    ms = before ++ scan mpp ms acc :: after /\
    readable (px mpp (scan mpp ms acc)) = true /\
    Forall (fun m => readable (px mpp m) = false) before.
Proof.
  revert acc; induction ms as [|m rest IH]; intros acc [m0 [Hin Hm0]].
  - destruct Hin.
  - cbn [scan]. destruct (readable (px mpp m)) eqn:Hm.
    + exists [], rest. repeat split; auto.
    + assert (Hrest : exists m', In m' rest /\ readable (px mpp m') = true).
      { destruct Hin as [->|Hin]; [congruence | now exists m0]. }
      destruct (short (px mpp m)).
      * destruct (IH m Hrest) as (b & a & E & R & F).
        exists (m :: b), a. cbn [app]. rewrite <- E. auto.
      * destruct (IH acc Hrest) as (b & a & E & R & F).
        exists (m :: b), a. cbn [app]. rewrite <- E. auto.
Qed.

(** Without one, the loop runs to the end and leaves the last candidate
    it found short, or the initial value. *)
Lemma scan_fallback (ms : list Z) (acc : Z) :
  Forall (fun m => readable (px mpp m) = false) ms ->
  scan mpp ms acc = last (filter (fun m => short (px mpp m)) ms) acc.
Proof.
  intros F; revert acc; induction F as [|m rest Hm F IH]; intros acc.
  - reflexivity.
  - cbn [scan filter]. rewrite Hm. destruct (short (px mpp m)) eqn:Hs.
    + rewrite IH. destruct (filter _ rest) eqn:E; [reflexivity|].
      cbn [last]. apply last_indep_cons.
    + apply IH.
Qed.

End ScanFacts.

(** C5: whatever meters-per-pixel value reaches the loop, in either
    reading of numbers, the distance it leaves in [scaleMeters] is one of
    10, 20, 50, 100, 200, 500, 1000, 2000. *)
Theorem scaleMeters_in_niceScales {T : Type} `{JsNumber T} (mpp : T) :
  In (scaleMeters mpp) niceScales.
Proof.
  unfold scaleMeters.
  destruct (scan_In mpp niceScales (nth 0 niceScales 0%Z)) as [E|E].
  - rewrite <- E; now left.
  - exact E.
Qed.

(** C1: when at least one candidate's pixel length [m / metersPerPixel]
    lies in [60, 160], the loop returns the first such candidate of
    [niceScales]: its own pixel length is in the range and no candidate
    before it in the list has one that is.  This holds for every
    meters-per-pixel value, positive or not. *)
Theorem scaleMeters_first_readable {T : Type} `{JsNumber T} (mpp : T) :
  (exists m, In m niceScales /\ readable (px mpp m) = true) ->
  exists before after,
    niceScales = before ++ scaleMeters mpp :: after /\
    readable (px mpp (scaleMeters mpp)) = true /\
    Forall (fun m => readable (px mpp m) = false) before.
Proof.
  intros Hex. unfold scaleMeters.
  exact (scan_first_readable mpp niceScales (nth 0 niceScales 0%Z) Hex).
Qed.

Lemma scaleMeters_first_readable_witness :
  exists before after,
    niceScales = before ++ scaleMeters 0x1.1cfaacd9e83e4p+0%float :: after /\
    readable (px 0x1.1cfaacd9e83e4p+0%float
                 (scaleMeters 0x1.1cfaacd9e83e4p+0%float)) = true /\
    Forall (fun m => readable (px 0x1.1cfaacd9e83e4p+0%float m) = false) before.
Proof.
  apply (scaleMeters_first_readable 0x1.1cfaacd9e83e4p+0%float).
  exists 100%Z. split.
  - right; right; right; left; reflexivity.
  - vm_compute; reflexivity.
Defined.

(** C2, as the loop has it: when no candidate's pixel length lies in
    [60, 160], the loop returns the largest candidate whose pixel length
    is below 60 if there is one, which is 2000 when every pixel length is
    below 60, and the smallest candidate, 10, if there is none. *)
Theorem scaleMeters_fallback {T : Type} `{JsNumber T} (mpp : T) :
  (forall m, In m niceScales -> readable (px mpp m) = false) ->
  ((exists m, In m niceScales /\ short (px mpp m) = true) ->
     short (px mpp (scaleMeters mpp)) = true /\
     forall m, In m niceScales -> short (px mpp m) = true ->
               (m <= scaleMeters mpp)%Z) /\
  ((forall m, In m niceScales -> short (px mpp m) = true) ->
     scaleMeters mpp = 2000%Z) /\
  ((forall m, In m niceScales -> short (px mpp m) = false) ->
     scaleMeters mpp = 10%Z).
Proof.
  intros Hno.
  assert (E : scaleMeters mpp
              = last (filter (fun m => short (px mpp m)) niceScales) 10%Z).
  { unfold scaleMeters. apply scan_fallback. now apply Forall_forall. }
  assert (Hlargest : forall m, In m niceScales -> short (px mpp m) = true ->
                               (m <= scaleMeters mpp)%Z).
  { intros m Hin Hs. rewrite E.
    apply (last_filter_largest (fun m => short (px mpp m)) niceScales 10%Z
             niceScales_ascending m Hin Hs). }
  split; [|split].
  - intros [m [Hin Hs]]. split; [|exact Hlargest].
    assert (Hi : In (scaleMeters mpp)
                    (filter (fun m => short (px mpp m)) niceScales)).
    { rewrite E. apply last_In. intros Hnil.
      assert (Hm : In m (filter (fun m => short (px mpp m)) niceScales))
        by (apply filter_In; auto).
      rewrite Hnil in Hm. destruct Hm. }
    apply filter_In in Hi. tauto.
  - intros Hall.
    assert (Hle : (2000 <= scaleMeters mpp)%Z).
    { apply Hlargest; [|apply Hall]; repeat (try (left; reflexivity); right). }
    pose proof (scan_In mpp niceScales (nth 0 niceScales 0%Z)) as Hin.
    fold (scaleMeters mpp) in Hin.
    unfold niceScales in Hin; cbn [In nth] in Hin. lia.
  - intros Hnone. rewrite E.
    now rewrite (filter_none (fun m => short (px mpp m)) niceScales Hnone).
Qed.

(** At 100 meters per pixel the candidates are 0.1 to 20 pixels long:
    none is readable and all are short. *)
Lemma far_out_not_readable :
  forall m, In m niceScales -> readable (px 100%float m) = false.
Proof.
  intros m Hin. unfold niceScales in Hin; cbn [In] in Hin.
  repeat (destruct Hin as [<-|Hin]; [vm_compute; reflexivity|]).
  destruct Hin.
Qed.

Lemma far_out_short :
  forall m, In m niceScales -> short (px 100%float m) = true.
Proof.
  intros m Hin. unfold niceScales in Hin; cbn [In] in Hin.
  repeat (destruct Hin as [<-|Hin]; [vm_compute; reflexivity|]).
  destruct Hin.
Qed.

Lemma scaleMeters_fallback_witness :
  scaleMeters 100%float = 2000%Z.
Proof.
  apply (proj1 (proj2 (scaleMeters_fallback 100%float far_out_not_readable))).
  exact far_out_short.
Defined.

(** C2 as the specification words it fails at 100 meters per pixel: no
    candidate is readable, the list is exhausted with every pixel length
    below 60, and the loop returns 2000, the largest candidate, not the
    smallest. *)
Lemma fallback_smallest_counterexample :
  (forall m, In m niceScales -> readable (px 100%float m) = false) /\
  (forall m, In m niceScales -> short (px 100%float m) = true) /\
  scaleMeters 100%float = 2000%Z /\
  scaleMeters 100%float <> nth 0 niceScales 0%Z.
Proof.
  split; [exact far_out_not_readable|].
  split; [exact far_out_short|].
  split; [vm_compute; reflexivity|].
  vm_compute. discriminate.
Qed.

(** ** The exact reading *)

Section ExactFacts.

Import Exact.
Local Open Scope R_scope.

Lemma Rleb_true (a b : R) : Rleb a b = true <-> a <= b.
Proof. unfold Rleb. destruct (Rle_dec a b); split; intros; auto; discriminate. Qed.

Lemma Rltb_true (a b : R) : Rltb a b = true <-> a < b.
Proof. unfold Rltb. destruct (Rlt_dec a b); split; intros; auto; discriminate. Qed.

Lemma Rleb_false (a b : R) : Rleb a b = false <-> b < a.
Proof.
  unfold Rleb. destruct (Rle_dec a b); split; intros; auto; try discriminate; lra.
Qed.

Lemma Rltb_false (a b : R) : Rltb a b = false <-> b <= a.
Proof.
  unfold Rltb. destruct (Rlt_dec a b); split; intros; auto; try discriminate; lra.
Qed.

(** A finite value divided by a nonzero finite one. *)
Lemma xdiv_Fin (x y : R) : y <> 0 -> xdiv (Fin x) (Fin y) = Fin (x / y).
Proof. intros Hy. unfold xdiv. destruct (Req_dec_T y 0); [contradiction|reflexivity]. Qed.

(** A positive value divided by zero. *)
Lemma xdiv_pos_zero (x : R) : 0 < x -> xdiv (Fin x) (Fin 0) = PInf.
Proof.
  intros Hx. unfold xdiv, by_sign.
  destruct (Req_dec_T 0 0); [|congruence].
  now rewrite (proj2 (Rltb_true 0 x) Hx).
Qed.

Lemma readable_Fin (x : R) :
  readable (Fin x) = true <-> 60 <= x <= 160.
Proof.
  unfold readable, nge. cbn [nle lit xreal_number xle].
  rewrite andb_true_iff, !Rleb_true. tauto.
Qed.


Lemma short_Fin (x : R) : short (Fin x) = true <-> x < 60.
Proof. unfold short. cbn [nlt lit xreal_number xlt]. apply Rltb_true. Qed.

Lemma readable_Fin_false (x : R) :
  x < 60 \/ 160 < x -> readable (Fin x) = false.
Proof.
  intros Hx. apply not_true_iff_false. rewrite readable_Fin. lra.
Qed.

Lemma short_Fin_false (x : R) : 60 <= x -> short (Fin x) = false.
Proof.
  intros Hx. apply not_true_iff_false. rewrite short_Fin. lra.
Qed.

(** The clamp [Math.max(40, Math.min(200, p))] of a finite value. *)
Lemma clamp_Fin (x : R) :
  nmax (lit 40) (nmin (lit 200) (Fin x)) = Fin (Rmax 40 (Rmin 200 x)).
Proof.
  cbn [nmax nmin lit xreal_number xmin xmax xle].
  destruct (Rleb 200 x) eqn:E1.
  - apply Rleb_true in E1. rewrite (Rmin_left 200 x E1).
    cbn [xle]. rewrite (proj2 (Rleb_true 40 200)) by lra.
    rewrite Rmax_right by lra. reflexivity.
  - apply Rleb_false in E1. rewrite (Rmin_right 200 x) by lra.
    cbn [xle]. destruct (Rleb 40 x) eqn:E2.
    + apply Rleb_true in E2. now rewrite Rmax_right.
    + apply Rleb_false in E2. rewrite Rmax_left by lra. reflexivity.
Qed.

Lemma clamp_PInf : nmax (lit 40) (nmin (lit 200) PInf) = Fin 200.
Proof.
  cbn [nmax nmin lit xreal_number xmin xmax xle].
  now rewrite (proj2 (Rleb_true 40 200)) by lra.
Qed.

(** The pixel length of a candidate, at a finite meters-per-pixel value,
    is finite, or plus infinity at zero. *)
Lemma px_Fin (r : R) (m : Z) :
  r <> 0 -> px (Fin r) m = Fin (IZR m / r).
Proof. intros Hr. unfold px. cbn [ndiv lit xreal_number]. now apply xdiv_Fin. Qed.

Lemma px_zero (m : Z) : In m niceScales -> px (Fin 0) m = PInf.
Proof.
  intros Hin. unfold px. cbn [ndiv lit xreal_number]. apply xdiv_pos_zero.
  unfold niceScales in Hin; cbn [In] in Hin.
  repeat (destruct Hin as [<-|Hin]; [lra|]). destruct Hin.
Qed.

(** With finite coordinates and a nonzero window width, the value of
    [metersPerPixel] is finite and given by the real formula. *)
Lemma metersPerDegreeLon_Fin (lat : R) (r : Region xreal) :
  latitude r = Fin lat ->
  metersPerDegreeLon r = Fin (cos (lat * PI / 180) * 111320).
Proof.
  intros Hlat. unfold metersPerDegreeLon. rewrite Hlat.
  cbn [xmul lit xreal_number]. rewrite xdiv_Fin by lra. reflexivity.
Qed.

Lemma viewportMeters_Fin (lat span : R) (r : Region xreal) :
  latitude r = Fin lat -> longitudeDelta r = Fin span ->
  viewportMeters r = Fin (cos (lat * PI / 180) * 111320 * span).
Proof.
  intros Hlat Hspan. unfold viewportMeters.
  now rewrite (metersPerDegreeLon_Fin lat r Hlat), Hspan.
Qed.

Lemma metersPerPixel_Fin (w lat span : R) (r : Region xreal) :
  w <> 0 -> latitude r = Fin lat -> longitudeDelta r = Fin span ->
  metersPerPixel (Fin w) r = Fin (cos (lat * PI / 180) * 111320 * span / w).
Proof.
  intros Hw Hlat Hspan. unfold metersPerPixel.
  rewrite (viewportMeters_Fin lat span r Hlat Hspan). now apply xdiv_Fin.
Qed.

End ExactFacts.

(** One iteration of the loop at a finite, nonzero meters-per-pixel value
    given by a numeral. *)
Ltac scan_step :=
  rewrite scan_cons, px_Fin by lra;
  first
    [ rewrite (proj2 (readable_Fin _)) by lra
    | rewrite readable_Fin_false by lra;
      first [ rewrite (proj2 (short_Fin _)) by lra
            | rewrite short_Fin_false by lra ] ].

(** ** Properties of the indicator *)

Section Indicator.

Import Exact.
Local Open Scope R_scope.

(** The loop at 1.1132 meters per pixel: 10, 20 and 50 are short, 100 is
    readable. *)
Lemma scaleMeters_equator : scaleMeters (Fin 1.1132) = 100%Z.
Proof.
  unfold scaleMeters, niceScales. cbn [nth].
  do 4 scan_step. reflexivity.
Qed.



(** C6: at latitude 0 with a span of 0.01 degrees on a window 1000
    pixels wide, the viewport is 1113.2 meters wide, a pixel covers 1.1132
    meters, the loop returns 100, whose pixel length is between 89.8 and
    89.9 and is the bar width, and the label is "100 m". *)
Theorem equator_scale (r : Region xreal) :
  latitude r = Fin 0 -> longitudeDelta r = Fin 0.01 ->
  viewportMeters r = Fin 1113.2 /\
  metersPerPixel (Fin 1000) r = Fin 1.1132 /\
  scaleMeters (metersPerPixel (Fin 1000) r) = 100%Z /\
  (exists x, px (metersPerPixel (Fin 1000) r) 100 = Fin x /\
             scalePx (metersPerPixel (Fin 1000) r) = Fin x /\
             89.8 < x < 89.9) /\
  scaleTxt (scaleMeters (metersPerPixel (Fin 1000) r)) = "100 m"%string.
Proof.
  intros Er Es.
  assert (Ev : viewportMeters r = Fin 1113.2).
  { rewrite (viewportMeters_Fin 0 0.01 r Er Es). f_equal.
    replace (0 * PI / 180) with 0 by lra. rewrite cos_0. lra. }
  assert (Em : metersPerPixel (Fin 1000) r = Fin 1.1132).
  { unfold metersPerPixel. rewrite Ev, xdiv_Fin by lra. f_equal. lra. }
  rewrite Em, scaleMeters_equator.
  repeat split; auto.
  exists (100 / 1.1132). split; [apply px_Fin; lra|]. split; [|lra].
  unfold scalePx. rewrite scaleMeters_equator.
  fold (px (Fin 1.1132) 100). rewrite px_Fin, clamp_Fin by lra. f_equal.
  rewrite Rmin_right, Rmax_right by lra. reflexivity.
Qed.

Lemma equator_scale_witness :
  scaleMeters (metersPerPixel (Fin 1000) equator_view) = 100%Z.
Proof.
  apply (equator_scale equator_view); reflexivity.
Defined.

End Indicator.

(** C7: on the candidates, the label of a distance of at least 1000
    meters is the number of kilometers with one digit after the point,
    followed by " km", and the label of a smaller one is the number of
    meters followed by " m"; 1000 gives "1.0 km" and 500 gives "500 m". *)
Theorem scaleTxt_format (m : Z) :
  In m niceScales ->
  ((1000 <= m)%Z ->
   exists km tenth : Z,
     (0 <= tenth < 10)%Z /\ (m = 1000 * km + 100 * tenth)%Z /\
     String.length (toString tenth) = 1%nat /\
     scaleTxt m = (toString km ++ "." ++ toString tenth ++ " km")%string) /\
  ((m < 1000)%Z -> scaleTxt m = (toString m ++ " m")%string) /\
  scaleTxt 1000 = "1.0 km"%string /\
  scaleTxt 500 = "500 m"%string.
Proof.
  intros Hin. unfold niceScales in Hin; cbn [In] in Hin.
  split; [|split; [|split; reflexivity]].
  - intros Hge.
    assert (Hm : m = 1000%Z \/ m = 2000%Z) by lia.
    destruct Hm as [-> | ->].
    + exists 1%Z, 0%Z. repeat split; try lia; reflexivity.
    + exists 2%Z, 0%Z. repeat split; try lia; reflexivity.
  - intros Hlt.
    repeat (destruct Hin as [<-|Hin]; [first [reflexivity | lia]|]).
    destruct Hin.
Qed.

Lemma scaleTxt_format_witness : scaleTxt 2000 = "2.0 km"%string.
Proof.
  assert (Hin : In 2000%Z niceScales) by (repeat (try (left; reflexivity); right)).
  destruct (proj1 (scaleTxt_format 2000 Hin) ltac:(lia))
    as (km & tenth & Ht & Hm & _ & E).
  assert (km = 2%Z /\ tenth = 0%Z) as [-> ->] by lia.
  exact E.
Defined.




(** ** Degenerate scales *)

Section DegenerateScale.

Import Exact.
Local Open Scope R_scope.

Lemma readable_short_PInf : readable PInf = false /\ short PInf = false.
Proof. split; reflexivity. Qed.

Lemma readable_short_NaN : readable NaN = false /\ short NaN = false.
Proof. split; reflexivity. Qed.

(** A loop in which no candidate passes either test leaves the initial
    value. *)
Lemma scan_untouched (mpp : xreal) (ms : list Z) (acc : Z) :
  (forall m, readable (px mpp m) = false /\ short (px mpp m) = false) ->
  scan mpp ms acc = acc.
Proof.
  intros Hm. induction ms as [|m rest IH]; [reflexivity|].
  rewrite scan_cons. destruct (Hm m) as [-> ->]. exact IH.
Qed.

(** A loop in which every candidate is short and none readable ends on
    the last candidate. *)
Lemma scan_all_short (mpp : xreal) (ms : list Z) (acc : Z) :
  (forall m, readable (px mpp m) = false /\ short (px mpp m) = true) ->
  scan mpp ms acc = last ms acc.
Proof.
  intros Hm. revert acc. induction ms as [|m rest IH]; intros acc; [reflexivity|].
  rewrite scan_cons. destruct (Hm m) as [-> ->]. rewrite IH.
  symmetry. apply last_cons_default.
Qed.

Lemma candidates_positive (m : Z) : In m niceScales -> 0 < IZR m.
Proof.
  intros Hin. unfold niceScales in Hin; cbn [In] in Hin.
  repeat (destruct Hin as [<-|Hin]; [lra|]). destruct Hin.
Qed.

Lemma scaleMeters_In (mpp : xreal) : In (scaleMeters mpp) niceScales.
Proof.
  unfold scaleMeters.
  destruct (scan_In mpp niceScales (nth 0 niceScales 0%Z)) as [E|E];
    [rewrite <- E; now left | exact E].
Qed.

Lemma scale_zero : scaleMeters (Fin 0) = 10%Z /\ scalePx (Fin 0) = Fin 200.
Proof.
  assert (E : scaleMeters (Fin 0) = 10%Z).
  { unfold scaleMeters, niceScales. cbn [nth].
    repeat (rewrite scan_cons, px_zero
              by (unfold niceScales; cbn [In]; tauto)).
    reflexivity. }
  split; [exact E|].
  unfold scalePx. rewrite E. fold (px (Fin 0) 10).
  rewrite px_zero by (now left). apply clamp_PInf.
Qed.

Lemma scale_negative (r : R) :
  r < 0 -> scaleMeters (Fin r) = 2000%Z /\ scalePx (Fin r) = Fin 40.
Proof.
  intros Hr.
  assert (Hk : / r < 0) by now apply Rinv_lt_0_compat.
  assert (Hp : forall m, (0 <= m)%Z ->
             readable (px (Fin r) m) = false /\ short (px (Fin r) m) = true).
  { intros m Hm. apply IZR_le in Hm. rewrite px_Fin by lra.
    assert (IZR m / r < 60) by (unfold Rdiv; nra).
    split; [apply readable_Fin_false; now left | now apply short_Fin]. }
  assert (E : scaleMeters (Fin r) = 2000%Z).
  { unfold scaleMeters, niceScales. cbn [nth].
    repeat (rewrite scan_cons;
            match goal with
            | |- context [px (Fin r) ?m] =>
                destruct (Hp m ltac:(lia)) as [-> ->]
            end).
    reflexivity. }
  split; [exact E|].
  unfold scalePx. rewrite E. fold (px (Fin r) 2000).
  rewrite px_Fin, clamp_Fin by lra. f_equal.
  assert (2000 / r < 0) by (unfold Rdiv; nra).
  rewrite Rmin_right, Rmax_left by lra. reflexivity.
Qed.

Lemma scale_infinite (mpp : xreal) :
  mpp = PInf \/ mpp = NInf ->
  scaleMeters mpp = 2000%Z /\ scalePx mpp = Fin 40.
Proof.
  intros Hinf.
  assert (Hpx : forall m, px mpp m = Fin 0)
    by (intros m; destruct Hinf as [-> | ->]; reflexivity).
  assert (R0 : readable (Fin 0) = false)
    by (apply readable_Fin_false; lra).
  assert (S0 : short (Fin 0) = true) by (apply short_Fin; lra).
  assert (E : scaleMeters mpp = 2000%Z).
  { unfold scaleMeters. rewrite scan_all_short; [reflexivity|].
    intros m. now rewrite Hpx. }
  split; [exact E|].
  unfold scalePx. fold (px mpp (scaleMeters mpp)).
  rewrite Hpx, clamp_Fin. f_equal.
  rewrite Rmin_right, Rmax_left by lra. reflexivity.
Qed.

Lemma scale_NaN : scaleMeters NaN = 10%Z /\ scalePx NaN = NaN.
Proof.
  split; [|reflexivity].
  unfold scaleMeters. now rewrite scan_untouched.
Qed.

(** X4: the bar width is NaN exactly when the meters-per-pixel value is;
    for every other value, the infinities and zero included, it is a
    finite number between 40 and 200. *)
Theorem scalePx_NaN_iff (mpp : xreal) :
  (scalePx mpp = NaN <-> mpp = NaN) /\
  (mpp <> NaN -> exists x, scalePx mpp = Fin x /\ 40 <= x <= 200).
Proof.
  assert (Hb : mpp <> NaN -> exists x, scalePx mpp = Fin x /\ 40 <= x <= 200).
  { intros Hn. destruct mpp as [r| | |]; [| | |congruence].
    - destruct (Rtotal_order r 0) as [Hr|[->|Hr]].
      + exists 40. split; [apply scale_negative, Hr | lra].
      + exists 200. split; [apply scale_zero | lra].
      + unfold scalePx. fold (px (Fin r) (scaleMeters (Fin r))).
        rewrite px_Fin, clamp_Fin by lra. eexists. split; [reflexivity|].
        split; [apply Rmax_l | apply Rmax_lub; [lra | apply Rmin_l]].
    - exists 40. split; [apply scale_infinite; now left | lra].
    - exists 40. split; [apply scale_infinite; now right | lra]. }
  split; [|exact Hb]. split.
  - intros E. destruct mpp as [r| | |]; [| | |reflexivity];
      (destruct Hb as (x & Ex & _); [discriminate | congruence]).
  - intros ->. apply scale_NaN.
Qed.

End DegenerateScale.

(** ** The clamp in binary64 *)

Section Binary64Clamp.

Import SpecFloat.

Lemma SFcompare_antisym (x y : spec_float) :
  SFcompare y x = option_map CompOpp (SFcompare x y).
Proof.
  destruct x as [sx|sx| |sx mx ex], y as [sy|sy| |sy my ey]; cbn;
    try reflexivity;
    try (destruct sx; reflexivity); try (destruct sy; reflexivity);
    try (destruct sx, sy; reflexivity).
  f_equal. destruct sx, sy; try reflexivity.
  - rewrite (Z.compare_antisym ey ex).
    destruct (ey ?= ex)%Z; cbn; try reflexivity.
    change (Pos.compare_cont Eq my mx) with (Pos.compare my mx).
    change (Pos.compare_cont Eq mx my) with (Pos.compare mx my).
    now rewrite (Pos.compare_antisym mx my), CompOpp_involutive.
  - rewrite (Z.compare_antisym ey ex).
    destruct (ey ?= ex)%Z; cbn; try reflexivity.
    change (Pos.compare_cont Eq my mx) with (Pos.compare my mx).
    change (Pos.compare_cont Eq mx my) with (Pos.compare mx my).
    now rewrite (Pos.compare_antisym mx my).
Qed.

(** A number that is not NaN compares equal to itself. *)
Lemma not_nan_compare (a : float) :
  PrimFloat.is_nan a = false ->
  SFcompare (Prim2SF a) (Prim2SF a) = Some Eq.
Proof.
  unfold PrimFloat.is_nan. rewrite FloatAxioms.eqb_spec. unfold SFeqb.
  destruct (SFcompare _ _) as [[]|]; cbn; congruence.
Qed.

Lemma compare_defined (x y : spec_float) :
  SFcompare x x = Some Eq -> SFcompare y y = Some Eq ->
  exists c, SFcompare x y = Some c.
Proof.
  destruct x, y; cbn; intros; try discriminate; eauto.
Qed.

Lemma ltb_leb (a b : float) :
  PrimFloat.ltb a b = true -> PrimFloat.leb a b = true.
Proof.
  rewrite FloatAxioms.ltb_spec, FloatAxioms.leb_spec. unfold SFltb, SFleb.
  destruct (SFcompare _ _) as [[]|]; congruence.
Qed.

(** Two numbers that are not NaN are comparable. *)
Lemma not_ltb_leb (a b : float) :
  PrimFloat.is_nan a = false -> PrimFloat.is_nan b = false ->
  PrimFloat.ltb a b = false -> PrimFloat.leb b a = true.
Proof.
  intros Ha Hb. apply not_nan_compare in Ha, Hb.
  rewrite FloatAxioms.ltb_spec, FloatAxioms.leb_spec. unfold SFltb, SFleb.
  rewrite (SFcompare_antisym (Prim2SF a) (Prim2SF b)).
  destruct (compare_defined _ _ Ha Hb) as [c ->].
  destruct c; cbn; congruence.
Qed.

(** [Math.min(200, p)] is 200 or [p], and at most 200. *)
Lemma min_200 (p : float) :
  PrimFloat.is_nan p = false ->
  PrimFloat.is_nan (Binary64.min 200 p) = false /\
  PrimFloat.leb (Binary64.min 200 p) 200 = true.
Proof.
  intros Hp. unfold Binary64.min.
  change (PrimFloat.is_nan 200) with false. rewrite Hp. cbn [orb].
  destruct (PrimFloat.ltb 200 p) eqn:E1; [split; reflexivity|].
  assert (Hle : PrimFloat.leb p 200 = true)
    by (apply not_ltb_leb; [reflexivity | exact Hp | exact E1]).
  destruct (PrimFloat.ltb p 200); [now split|].
  change (PrimFloat.get_sign 200) with false. now split.
Qed.

(** [Math.max(40, y)] of a number at most 200 lies between 40 and 200. *)
Lemma max_40 (y : float) :
  PrimFloat.is_nan y = false -> PrimFloat.leb y 200 = true ->
  PrimFloat.is_nan (Binary64.max 40 y) = false /\
  PrimFloat.leb 40 (Binary64.max 40 y) = true /\
  PrimFloat.leb (Binary64.max 40 y) 200 = true.
Proof.
  intros Hy Hle. unfold Binary64.max.
  change (PrimFloat.is_nan 40) with false. rewrite Hy. cbn [orb].
  destruct (PrimFloat.ltb 40 y) eqn:E1.
  - repeat split; auto. now apply ltb_leb.
  - destruct (PrimFloat.ltb y 40); [repeat split; reflexivity|].
    change (PrimFloat.get_sign 40) with false. repeat split; reflexivity.
Qed.

(** X6: in binary64, whenever the pixel length of the returned candidate
    is not NaN, the bar width is a number between 40 and 200. *)
Theorem scalePx_bounds_binary64 (mpp : float) :
  PrimFloat.is_nan (px mpp (scaleMeters mpp)) = false ->
  PrimFloat.is_nan (scalePx mpp) = false /\
  PrimFloat.leb 40 (scalePx mpp) = true /\
  PrimFloat.leb (scalePx mpp) 200 = true.
Proof.
  intros Hp. unfold scalePx. fold (px mpp (scaleMeters mpp)).
  cbn [nmax nmin lit Binary64.float_number].
  change (Binary64.of_Z 40) with 40%float.
  change (Binary64.of_Z 200) with 200%float.
  destruct (min_200 _ Hp) as [Hn Hle].
  now apply max_40.
Qed.

Lemma scalePx_bounds_binary64_witness :
  PrimFloat.is_nan (scalePx 100%float) = false /\
  PrimFloat.leb 40 (scalePx 100%float) = true /\
  PrimFloat.leb (scalePx 100%float) 200 = true.
Proof.
  apply (scalePx_bounds_binary64 100%float). vm_compute. reflexivity.
Defined.

End Binary64Clamp.

(** ** Labels *)

(** X7: the label identifies the distance: two candidates with the same
    label are the same candidate. *)
Theorem scaleTxt_injective (m1 m2 : Z) :
  In m1 niceScales -> In m2 niceScales ->
  scaleTxt m1 = scaleTxt m2 -> m1 = m2.
Proof.
  intros H1 H2.
  unfold niceScales in H1, H2; cbn [In] in H1, H2.
  repeat (destruct H1 as [<-|H1];
          [repeat (destruct H2 as [<-|H2];
                   [intros E; first [reflexivity | discriminate E]|]);
           destruct H2|]).
  destruct H1.
Qed.

Lemma scaleTxt_injective_witness : 1000%Z = 1000%Z.
Proof.
  apply (scaleTxt_injective 1000 1000).
  - unfold niceScales; cbn [In]; tauto.
  - unfold niceScales; cbn [In]; tauto.
  - reflexivity.
Defined.

(** ** The map style *)

Lemma isPoi_true (s : StyleRule) :
  isPoi s = true <-> featureType s = Some "poi"%string.
Proof.
  unfold isPoi. destruct (featureType s) as [f|].
  - rewrite String.eqb_eq. split; [intros ->; reflexivity | congruence].
  - split; discriminate.
Qed.

(** X8: showing or hiding the points of interest keeps every rule of the
    base style in its place with its feature and element types, leaves
    every rule whose feature type is not exactly "poi" as it is ("poi.park"
    included), and gives the "poi" rules the single styler
    visibility on or off. *)
Theorem withPOIs_rules (show : bool) :
  List.length (withPOIs show) = List.length MAP_STYLE_BASE /\
  forall i s,
    nth_error MAP_STYLE_BASE i = Some s ->
    exists s',
      nth_error (withPOIs show) i = Some s' /\
      featureType s' = featureType s /\
      elementType s' = elementType s /\
      (featureType s <> Some "poi"%string -> s' = s) /\
      (featureType s = Some "poi"%string ->
       stylers s' = [("visibility", if show then "on" else "off")%string]).
Proof.
  split; [apply length_map|].
  intros i s Hs. exists (poiRule show s).
  split; [unfold withPOIs; now apply map_nth_error|].
  unfold poiRule. destruct (isPoi s) eqn:E.
  - apply isPoi_true in E. repeat split; auto. congruence.
  - repeat split; auto. intros Hf. apply isPoi_true in Hf. congruence.
Qed.

(** X9: the base style is the style with the points of interest hidden;
    showing them changes the rule at position 4 and no other. *)
Theorem withPOIs_base :
  withPOIs false = MAP_STYLE_BASE /\
  nth_error (withPOIs true) 4
  = Some {| featureType := Some "poi"%string; elementType := None;
            stylers := [("visibility", "on")%string] |} /\
  forall i, i <> 4%nat ->
            nth_error (withPOIs true) i = nth_error MAP_STYLE_BASE i.
Proof.
  split; [reflexivity|]. split; [reflexivity|].
  intros i Hi.
  do 10 (destruct i as [|i]; [first [reflexivity | congruence]|]).
  reflexivity.
Qed.

(** ** The map type chip *)

Section ArrayFacts.

Variable A : Type.
Variable eqb : A -> A -> bool.

Lemma indexOf_from_absent (l : list A) (x : A) (i : Z) :
  (forall y, In y l -> eqb y x = false) -> indexOf_from eqb l x i = (-1)%Z.
Proof.
  revert i; induction l as [|y rest IH]; intros i Hx; [reflexivity|].
  cbn [indexOf_from]. rewrite (Hx y (or_introl eq_refl)).
  apply IH. intros z Hz. apply Hx. now right.
Qed.

Hypothesis eqb_eq : forall a b, eqb a b = true <-> a = b.

Lemma indexOf_from_nth (l : list A) (x : A) (n : nat) (i : Z) :
  NoDup l -> nth_error l n = Some x ->
  indexOf_from eqb l x i = (i + Z.of_nat n)%Z.
Proof.
  revert n i; induction l as [|y rest IH]; intros n i Hnd Hn.
  - destruct n; discriminate.
  - cbn [indexOf_from]. destruct n as [|n].
    + injection Hn as ->. rewrite (proj2 (eqb_eq x x) eq_refl). lia.
    + cbn [nth_error] in Hn. inversion Hnd as [|y' l' Hnotin Hnd']; subst.
      destruct (eqb y x) eqn:E.
      * apply eqb_eq in E. subst y. apply nth_error_In in Hn. contradiction.
      * rewrite (IH n (i + 1)%Z Hnd' Hn). lia.
Qed.

(** X10: stepping through an array without repetitions.  A value that
    is not in the array is sent to its first element, the value at a
    position to the value at the next position, and the last one back to
    the first. *)
Theorem nextIn_cycles (order : list A) (x : A) :
  NoDup order ->
  (forall first rest, order = first :: rest -> ~ In x order ->
                      nextIn eqb order x = Some first) /\
  (forall n, nth_error order n = Some x ->
             nextIn eqb order x
             = nth_error order (S n mod List.length order)).
Proof.
  intros Hnd. split.
  - intros first rest -> Hnotin. unfold nextIn, indexOf.
    rewrite indexOf_from_absent.
    + cbn [at_index]. rewrite Z.rem_0_l; [reflexivity|].
      cbn [List.length]. lia.
    + intros y Hy. destruct (eqb y x) eqn:E; [|reflexivity].
      apply eqb_eq in E. subst y. contradiction.
  - intros n Hn. unfold nextIn, indexOf.
    rewrite (indexOf_from_nth order x n 0 Hnd Hn).
    assert (Hlt : (n < List.length order)%nat)
      by (apply nth_error_Some; congruence).
    replace (0 + Z.of_nat n + 1)%Z with (Z.of_nat (S n)) by lia.
    rewrite Z.rem_mod_nonneg by lia.
    rewrite <- Nat2Z.inj_mod. unfold at_index.
    destruct (Z.of_nat (S n mod List.length order) <? 0)%Z eqn:E;
      [apply Z.ltb_lt in E; lia|].
    now rewrite Nat2Z.id.
Qed.

End ArrayFacts.

Lemma MapType_eqb_eq (a b : MapType) : MapType_eqb a b = true <-> a = b.
Proof. destruct a, b; cbn; split; intros; congruence. Qed.

Lemma nextIn_cycles_witness :
  nextIn MapType_eqb order hybrid = nth_error order (4 mod 4).
Proof.
  assert (Hnd : NoDup order).
  { unfold order. repeat constructor; cbn [In]; intuition discriminate. }
  apply (proj2 (nextIn_cycles MapType MapType_eqb MapType_eqb_eq
                  order hybrid Hnd) 3%nat).
  reflexivity.
Defined.

(** X11: the chip always has a next map type, which differs from the
    current one and has another label; four presses come back to the
    map type they started from, and fewer do not. *)
Theorem nextMapType_cycle (t : MapType) :
  exists t1 t2 t3,
    nextMapType t = Some t1 /\ nextMapType t1 = Some t2 /\
    nextMapType t2 = Some t3 /\ nextMapType t3 = Some t /\
    t1 <> t /\ t2 <> t /\ t3 <> t /\
    mapTypeLabel t1 <> mapTypeLabel t.
Proof.
  destruct t.
  - exists satellite, terrain, hybrid. repeat split; discriminate.
  - exists terrain, hybrid, standard. repeat split; discriminate.
  - exists hybrid, standard, satellite. repeat split; discriminate.
  - exists standard, satellite, terrain. repeat split; discriminate.
Qed.

(** ** The panel image *)

Section ImageFacts.

Import Exact.
Local Open Scope R_scope.

(** X13: outside these conditions.  On a window exactly 32 wide an image
    of nonzero width is given no size at all.  An image of zero width and
    positive height, on a window wider than 32, is given an infinite
    height; one of zero width and zero height a NaN height. *)
Theorem fitImage_degenerate (W w h : R) :
  (W = 32 -> w <> 0 -> fitImage (Fin W) (Fin w) (Fin h) = (Fin 0, Fin 0)) /\
  (32 < W -> w = 0 -> 0 < h ->
   fitImage (Fin W) (Fin w) (Fin h) = (Fin (W - 32), PInf)) /\
  (w = 0 -> h = 0 -> snd (fitImage (Fin W) (Fin w) (Fin h)) = NaN).
Proof.
  split; [|split].
  - intros -> Hw. unfold fitImage. cbn [xsub lit xreal_number].
    replace (32 - 32) with 0 by lra.
    unfold xdiv at 2. destruct (Req_dec_T 0 0); [|congruence].
    unfold by_sign. destruct (Rltb 0 w) eqn:Ep; [reflexivity|].
    destruct (Rltb w 0) eqn:En; [reflexivity|].
    apply Rltb_false in Ep, En. lra.
  - intros HW -> Hh. unfold fitImage. cbn [xsub lit xreal_number].
    rewrite (xdiv_Fin 0 (W - 32)) by lra.
    replace (0 / (W - 32)) with 0 by (unfold Rdiv; lra).
    now rewrite (xdiv_pos_zero h Hh).
  - intros -> ->. unfold fitImage. cbn [xsub lit xreal_number snd].
    assert (E : xdiv (Fin 0) (Fin (W - 32)) = Fin 0 \/
                xdiv (Fin 0) (Fin (W - 32)) = NaN).
    { unfold xdiv. destruct (Req_dec_T (W - 32) 0).
      - right. unfold by_sign. now rewrite (proj2 (Rltb_false 0 0)) by lra.
      - left. f_equal. unfold Rdiv. lra. }
    destruct E as [-> | ->]; [|reflexivity].
    unfold xdiv. destruct (Req_dec_T 0 0); [|congruence].
    unfold by_sign. now rewrite (proj2 (Rltb_false 0 0)) by lra.
Qed.

End ImageFacts.

(** ** Events *)

Section EventFacts.

Import Exact.
Local Open Scope R_scope.

Variable SCREEN_W : xreal.
Variable ReportMarker : Type.

Let State : Type := ScreenState ReportMarker.

Lemma handle_spans_fixed (e : Event ReportMarker) (s : State) :
  match e with
  | RecenterFix held _ _ => spans_fixed held
  | _ => True
  end ->
  spans_fixed (region s) -> spans_fixed (region (handle SCREEN_W e s)).
Proof.
  intros He Hs. destruct e; cbn [handle];
    try exact Hs;
    try (intros r E; cbn in E; injection E as <-).
  - split; reflexivity.
  - unfold watchedRegion. destruct (region s) as [p|] eqn:Ep.
    + exact (Hs p eq_refl).
    + split; reflexivity.
  - unfold recenteredRegion. destruct held as [p|].
    + exact (He p eq_refl).
    + split; reflexivity.
  - destruct (follow s); exact Hs.
  - destruct (nextMapType (mapType s)); exact Hs.
Qed.

(** X14: in every state the component can reach, the viewport it holds
    has the spans 0.01 and 0.01 it started with: no event writes another
    span.  The scale therefore follows the latitude alone: at latitude
    [lat] on a window [w] wide a pixel covers
    cos(lat * PI / 180) * 111320 * 0.01 / w meters. *)
Theorem reachable_spans
        (ms : list ReportMarker) (s : State) (r : Region xreal) :
  Reachable SCREEN_W ms s -> region s = Some r ->
  latitudeDelta r = Fin 0.01 /\ longitudeDelta r = Fin 0.01 /\
  forall lat w, latitude r = Fin lat -> w <> 0 ->
                metersPerPixel (Fin w) r
                = Fin (cos (lat * PI / 180) * 111320 * 0.01 / w).
Proof.
  intros Hreach.
  assert (Hinv : spans_fixed (region s)).
  { induction Hreach as [|e s Hs IH Hne|s0 s lat lon Hs0 IH0 Hs IH].
    - intros r0 E. discriminate E.
    - apply handle_spans_fixed; [|exact IH].
      destruct e; try exact I. exfalso. now apply (Hne held lat lon).
    - apply handle_spans_fixed; [exact IH0 | exact IH]. }
  intros Er. destruct (Hinv r Er) as [Hlat Hlon].
  split; [exact Hlat|]. split; [exact Hlon|].
  intros lat w El Hw. now apply metersPerPixel_Fin.
Qed.

(** Once a viewport is held and loading is over, every event leaves it
    so. *)
Lemma handle_shown (e : Event ReportMarker) (s : State) :
  region s <> None /\ loading s = false ->
  region (handle SCREEN_W e s) <> None /\
  loading (handle SCREEN_W e s) = false.
Proof.
  intros [Hr Hl].
  destruct e; cbn [handle];
    try destruct (follow s); try destruct (nextMapType (mapType s));
    (split; [first [exact Hr | discriminate] | first [exact Hl | reflexivity]]).
Qed.

(** X15: after the first position fix the scale indicator is on the
    screen, and it stays there whatever happens next. *)
Theorem indicator_stays (s : State) (lat lon : xreal)
        (es : list (Event ReportMarker)) :
  exists v,
    scaleIndicator SCREEN_W
      (run SCREEN_W es (handle SCREEN_W (PositionFix lat lon) s)) = Some v.
Proof.
  assert (Hshown : forall s' : State,
             region s' <> None /\ loading s' = false ->
             exists v, scaleIndicator SCREEN_W s' = Some v).
  { intros s' [Hr Hl]. unfold scaleIndicator.
    destruct (region s') as [r|]; [|congruence]. rewrite Hl. eauto. }
  apply Hshown.
  assert (H0 : region (handle SCREEN_W (PositionFix lat lon) s) <> None /\
               loading (handle SCREEN_W (PositionFix lat lon) s) = false)
    by (split; [discriminate | reflexivity]).
  revert H0. generalize (handle SCREEN_W (PositionFix lat lon) s).
  induction es as [|e es IH]; intros s' Hs'; [exact Hs'|].
  cbn [run fold_left]. apply IH. now apply handle_shown.
Qed.

End EventFacts.

Lemma reachable_spans_witness :
  latitudeDelta (firstRegion (Exact.Fin 0) (Exact.Fin 0)) = Exact.Fin 0.01 /\
  longitudeDelta (firstRegion (Exact.Fin 0) (Exact.Fin 0)) = Exact.Fin 0.01 /\
  forall lat w,
    latitude (firstRegion (Exact.Fin 0) (Exact.Fin 0)) = Exact.Fin lat ->
    w <> 0%R ->
    metersPerPixel (Exact.Fin w) (firstRegion (Exact.Fin 0) (Exact.Fin 0))
    = Exact.Fin (cos (lat * PI / 180) * 111320 * 0.01 / w).
Proof.
  apply (reachable_spans (Exact.Fin 1000) unit []
           (handle (Exact.Fin 1000)
                   (PositionFix (Exact.Fin 0) (Exact.Fin 0))
                   (initialState []))).
  - apply reach_event; [apply reach_initial | discriminate].
  - reflexivity.
Defined.

(** ** Division in binary64 *)

Section Binary64Division.

Import SpecFloat.

(** A number that is not NaN, with its sign bit. *)
Definition signed (s : bool) (x : spec_float) : Prop :=
  match x with
  | S754_zero s' | S754_infinity s' | S754_finite s' _ _ => s' = s
  | S754_nan => False
  end.

Lemma shr_1_nonneg (mrs : shr_record) :
  (0 <= shr_m mrs)%Z -> (0 <= shr_m (shr_1 mrs))%Z.
Proof.
  destruct mrs as [m r s]. cbn [shr_m]. intros Hm.
  destruct m as [|p|p]; [cbn; lia | destruct p; cbn; lia | lia].
Qed.

Lemma iter_shr_1_nonneg (p : positive) (mrs : shr_record) :
  (0 <= shr_m mrs)%Z -> (0 <= shr_m (iter_pos shr_1 p mrs))%Z.
Proof.
  revert mrs. induction p as [p IH|p IH|]; intros mrs Hm; cbn [iter_pos].
  - apply IH, IH. now apply shr_1_nonneg.
  - now apply IH, IH.
  - now apply shr_1_nonneg.
Qed.

Lemma shr_fexp_nonneg (prec emax m e : Z) (l : location) :
  (0 <= m)%Z -> (0 <= shr_m (fst (shr_fexp prec emax m e l)))%Z.
Proof.
  intros Hm. unfold shr_fexp, shr.
  assert (H0 : (0 <= shr_m (shr_record_of_loc m l))%Z).
  { destruct l as [|[]]; exact Hm. }
  destruct (_ - e)%Z; cbn [fst]; auto. now apply iter_shr_1_nonneg.
Qed.

Lemma round_nearest_even_nonneg (m : Z) (l : location) :
  (0 <= m)%Z -> (0 <= round_nearest_even m l)%Z.
Proof.
  intros Hm. destruct l as [|[]]; cbn; try lia. destruct (Z.even m); lia.
Qed.

(** Rounding a nonnegative mantissa gives a zero, a finite number or an
    infinity of the sign asked for, never NaN. *)
Lemma binary_round_aux_signed
      (prec emax : Z) (sx : bool) (mx ex : Z) (lx : location) :
  (0 <= mx)%Z -> signed sx (binary_round_aux prec emax sx mx ex lx).
Proof.
  intros Hm. unfold binary_round_aux.
  pose proof (shr_fexp_nonneg prec emax mx ex lx Hm) as H1.
  destruct (shr_fexp prec emax mx ex lx) as [mrs' e']. cbn [fst] in H1.
  pose proof (shr_fexp_nonneg prec emax _ e' loc_Exact
                (round_nearest_even_nonneg _ (loc_of_shr_record mrs') H1))
    as H2.
  destruct (shr_fexp prec emax _ e' loc_Exact) as [mrs'' e''].
  cbn [fst] in H2.
  destruct (shr_m mrs'') as [|p|p]; [reflexivity | | lia].
  destruct (e'' <=? emax - prec)%Z; reflexivity.
Qed.

Lemma SFdiv_core_nonneg (prec emax : Z) (m1 m2 : positive) (e1 e2 : Z) :
  (0 <= fst (fst (SFdiv_core_binary prec emax (Zpos m1) e1 (Zpos m2) e2)))%Z.
Proof.
  unfold SFdiv_core_binary.
  set (s := (e1 - e2 - _)%Z).
  set (m' := match s with
             | Zpos _ => Z.shiftl (Zpos m1) s
             | Z0 => Zpos m1
             | Zneg _ => 0%Z
             end).
  assert (Hm' : (0 <= m')%Z).
  { unfold m'. destruct s; try lia. apply Z.shiftl_nonneg. lia. }
  pose proof (Z.div_eucl_eq m' (Zpos m2) ltac:(lia)) as E.
  pose proof (Z.mod_pos_bound m' (Zpos m2) ltac:(lia)) as B.
  unfold Z.modulo in B.
  destruct (Z.div_eucl m' (Zpos m2)) as [q r]. cbn [fst].
  nia.
Qed.

(** A positive finite number divided by a number that is not NaN is not
    NaN and has the sign of the divisor. *)
Lemma SFdiv_pos_signed
      (prec emax : Z) (mx : positive) (ex : Z) (y : spec_float) (s : bool) :
  signed s y -> signed s (SFdiv prec emax (S754_finite false mx ex) y).
Proof.
  destruct y as [sy|sy| |sy my ey]; cbn [signed SFdiv]; intros Hs;
    try exact Hs; try contradiction.
  pose proof (SFdiv_core_nonneg prec emax mx my ex ey) as Hq.
  destruct (SFdiv_core_binary prec emax (Zpos mx) ex (Zpos my) ey)
    as [[mz ez] lz].
  cbn [fst] in Hq. cbn [xorb]. subst sy.
  now apply binary_round_aux_signed.
Qed.

Lemma signed_not_nan (x : float) (s : bool) :
  signed s (Prim2SF x) -> PrimFloat.is_nan x = false.
Proof.
  unfold PrimFloat.is_nan. rewrite FloatAxioms.eqb_spec. unfold SFeqb.
  destruct (Prim2SF x) as [sx|sx| |sx mx ex]; cbn; try reflexivity;
    try contradiction.
  - destruct sx; reflexivity.
  - intros _. destruct sx; rewrite Z.compare_refl, Pos.compare_cont_refl;
      reflexivity.
Qed.

Lemma not_nan_signed (x : float) :
  PrimFloat.is_nan x = false -> signed (sign_bit x) (Prim2SF x).
Proof.
  intros Hx. apply not_nan_compare in Hx. unfold sign_bit.
  destruct (Prim2SF x); cbn in *; try reflexivity. discriminate.
Qed.

(** The pixel length of a candidate at a meters-per-pixel value that is
    not NaN is not NaN and has the sign of that value. *)
Lemma px_signed (mpp : float) (m : Z) :
  In m niceScales -> PrimFloat.is_nan mpp = false ->
  signed (sign_bit mpp) (Prim2SF (px mpp m)).
Proof.
  intros Hin Hn. apply not_nan_signed in Hn.
  unfold px. cbn [ndiv lit Binary64.float_number].
  rewrite FloatAxioms.div_spec. unfold FloatAxioms.SF64div.
  unfold niceScales in Hin; cbn [In] in Hin.
  repeat (destruct Hin as [<-|Hin];
          [match goal with
           | |- context [Prim2SF (Binary64.of_Z ?z)] =>
               let v := eval vm_compute in (Prim2SF (Binary64.of_Z z)) in
               change (Prim2SF (Binary64.of_Z z)) with v
           end;
           now apply SFdiv_pos_signed|]).
  destruct Hin.
Qed.





(** A number with its sign bit set is below every positive constant of
    the scale code. *)
Lemma signed_below (p c : float) (mc : positive) (ec : Z) :
  Prim2SF c = S754_finite false mc ec -> signed true (Prim2SF p) ->
  PrimFloat.ltb p c = true /\ PrimFloat.leb c p = false /\
  PrimFloat.ltb c p = false.
Proof.
  intros Ec Hp.
  rewrite !FloatAxioms.ltb_spec, FloatAxioms.leb_spec, Ec.
  unfold SFltb, SFleb.
  destruct (Prim2SF p) as [sp|sp| |sp mp ep]; cbn in Hp; try contradiction;
    subst sp; cbn; auto.
Qed.

(** X5: in binary64, at a meters-per-pixel value that is not NaN and has
    its sign bit set (a negative number, -0 or -Infinity) every pixel
    length is below 60: the loop ends on 2000 and the bar is 40 wide. *)
Theorem scale_negative_binary64 (mpp : float) :
  PrimFloat.is_nan mpp = false -> sign_bit mpp = true ->
  scaleMeters mpp = 2000%Z /\ scalePx mpp = 40%float.
Proof.
  intros Hn Hs.
  assert (Hpx : forall m, In m niceScales -> signed true (Prim2SF (px mpp m))).
  { intros m Hin. rewrite <- Hs. now apply px_signed. }
  assert (Hb : forall m c mc ec, In m niceScales ->
             Prim2SF c = S754_finite false mc ec ->
             PrimFloat.ltb (px mpp m) c = true /\
             PrimFloat.leb c (px mpp m) = false /\
             PrimFloat.ltb c (px mpp m) = false).
  { intros m c mc ec Hin Ec. apply (signed_below _ c mc ec Ec), Hpx, Hin. }
  assert (Hstep : forall m, In m niceScales ->
             readable (px mpp m) = false /\ short (px mpp m) = true).
  { intros m Hin. unfold readable, short, nge.
    cbn [nle nlt lit Binary64.float_number].
    change (Binary64.of_Z 60) with 60%float.
    destruct (Hb m 60%float _ _ Hin eq_refl) as (H1 & H2 & _).
    now rewrite H1, H2. }
  assert (E : scaleMeters mpp = 2000%Z).
  { unfold scaleMeters, niceScales. cbn [nth].
    repeat (rewrite scan_cons;
            match goal with
            | |- context [px mpp ?m] =>
                destruct (Hstep m ltac:(unfold niceScales; cbn [In]; tauto))
                  as [-> ->]
            end).
    reflexivity. }
  split; [exact E|].
  unfold scalePx. rewrite E. fold (px mpp 2000).
  assert (Hin : In 2000%Z niceScales) by (unfold niceScales; cbn [In]; tauto).
  cbn [nmax nmin lit Binary64.float_number].
  change (Binary64.of_Z 40) with 40%float.
  change (Binary64.of_Z 200) with 200%float.
  assert (Hp : PrimFloat.is_nan (px mpp 2000) = false)
    by (apply (signed_not_nan _ true), Hpx, Hin).
  destruct (Hb 2000%Z 200%float _ _ Hin eq_refl) as (L200 & _ & G200).
  destruct (Hb 2000%Z 40%float _ _ Hin eq_refl) as (L40 & _ & G40).
  unfold Binary64.min, Binary64.max.
  change (PrimFloat.is_nan 200) with false.
  change (PrimFloat.is_nan 40) with false.
  rewrite Hp. cbn [orb]. rewrite G200, L200, Hp. cbn [orb].
  now rewrite G40, L40.
Qed.

Lemma scale_negative_binary64_witness :
  scaleMeters (-0)%float = 2000%Z /\ scalePx (-0)%float = 40%float.
Proof.
  apply (scale_negative_binary64 (-0)%float); vm_compute; reflexivity.
Defined.

End Binary64Division.

(** ** The selection under a rounding division *)

Section RoundedScale.

Import Exact.
Local Open Scope R_scope.

Variable rnd : R -> R.

(** The rounding is monotone and leaves the two thresholds of the loop,
    which are representable, as they are. *)
Hypothesis rnd_monotone : forall x y, x <= y -> rnd x <= rnd y.
Hypothesis rnd_60 : rnd 60 = 60.
Hypothesis rnd_160 : rnd 160 = 160.

Let N : JsNumber xreal := Rounded.number rnd.

Lemma px_rnd (r : R) (m : Z) :
  r <> 0 -> @px xreal N (Fin r) m = Fin (rnd (IZR m / r)).
Proof.
  intros Hr. unfold px. cbn [ndiv lit N Rounded.number Rounded.rdiv].
  unfold Rounded.rdiv. now rewrite xdiv_Fin.
Qed.

Lemma readable_rnd (x : R) : @readable xreal N (Fin x) = true <-> 60 <= x <= 160.
Proof. exact (readable_Fin x). Qed.

Lemma readable_rnd_false (x : R) :
  x < 60 \/ 160 < x -> @readable xreal N (Fin x) = false.
Proof. exact (readable_Fin_false x). Qed.

Lemma short_rnd (x : R) : @short xreal N (Fin x) = true <-> x < 60.
Proof. exact (short_Fin x). Qed.

Lemma short_rnd_false (x : R) : 60 <= x -> @short xreal N (Fin x) = false.
Proof. exact (short_Fin_false x). Qed.

(** Pixel lengths grow with the candidate and shrink with the
    meters-per-pixel value. *)
Lemma rnd_px_le (r r' : R) (m m' : Z) :
  0 < r -> r <= r' -> (0 <= m <= m')%Z ->
  rnd (IZR m / r') <= rnd (IZR m' / r).
Proof.
  intros Hr Hrr Hm. apply rnd_monotone.
  assert (H0 : 0 <= IZR m) by (apply IZR_le; lia).
  assert (H1 : IZR m <= IZR m') by (apply IZR_le; lia).
  assert (Hk : 0 < / r) by now apply Rinv_0_lt_compat.
  assert (Hk' : 0 < / r') by (apply Rinv_0_lt_compat; lra).
  assert (Hkk : / r' <= / r) by (apply Rinv_le_contravar; lra).
  unfold Rdiv. nra.
Qed.

(** A candidate at most 5/2 times a short one is not beyond the range:
    rounding cannot carry a pixel length across both thresholds. *)
Lemma rnd_no_skip (r : R) (a b : Z) :
  0 < r -> (0 <= a)%Z -> (2 * b <= 5 * a)%Z ->
  rnd (IZR a / r) < 60 -> rnd (IZR b / r) <= 160.
Proof.
  intros Hr Ha Hab Hlt.
  assert (Hk : 0 < / r) by now apply Rinv_0_lt_compat.
  assert (Hx : IZR a / r < 60).
  { destruct (Rlt_le_dec (IZR a / r) 60) as [H|H]; [exact H|].
    apply rnd_monotone in H. rewrite rnd_60 in H. lra. }
  rewrite <- rnd_160. apply rnd_monotone.
  apply IZR_le in Hab. rewrite !mult_IZR in Hab.
  unfold Rdiv in *. nra.
Qed.

Ltac scan_cases_rnd r :=
  rewrite scan_cons, px_rnd by lra;
  match goal with
  | |- context [@readable xreal N (Fin (rnd (IZR ?m / r)))] =>
      destruct (Rlt_le_dec (rnd (IZR m / r)) 60);
      [ rewrite (readable_rnd_false (rnd (IZR m / r))) by (left; assumption);
        rewrite (proj2 (short_rnd (rnd (IZR m / r)))) by assumption
      | destruct (Rle_lt_dec (rnd (IZR m / r)) 160);
        [ rewrite (proj2 (readable_rnd (rnd (IZR m / r))))
            by (split; assumption)
        | rewrite (readable_rnd_false (rnd (IZR m / r)))
            by (right; assumption);
          rewrite (short_rnd_false (rnd (IZR m / r))) by assumption ] ]
  end.

(** The candidate the loop returns at a positive meters-per-pixel value,
    read off the rounded pixel lengths. *)
Lemma scaleMeters_table (r : R) :
  0 < r ->
  let q := fun m => rnd (IZR m / r) in
  let sm := @scaleMeters xreal N (Fin r) in
  ((60 <= q 10%Z /\ sm = 10%Z) \/
   (q 10%Z < 60 <= q 20%Z /\ sm = 20%Z) \/
   (q 20%Z < 60 <= q 50%Z /\ sm = 50%Z) \/
   (q 50%Z < 60 <= q 100%Z /\ sm = 100%Z) \/
   (q 100%Z < 60 <= q 200%Z /\ sm = 200%Z) \/
   (q 200%Z < 60 <= q 500%Z /\ sm = 500%Z) \/
   (q 500%Z < 60 <= q 1000%Z /\ sm = 1000%Z) \/
   (q 1000%Z < 60 /\ sm = 2000%Z))
  /\ (forall a b, (0 <= a <= b)%Z -> q a <= q b)
  /\ (forall a b, (0 <= a)%Z -> (2 * b <= 5 * a)%Z -> q a < 60 -> q b <= 160).
Proof.
  intros Hr q sm.
  assert (Hmono : forall a b, (0 <= a <= b)%Z -> q a <= q b)
    by (intros a b Hab; apply rnd_px_le; [exact Hr | lra | exact Hab]).
  assert (Hskip : forall a b, (0 <= a)%Z -> (2 * b <= 5 * a)%Z ->
                              q a < 60 -> q b <= 160)
    by (intros a b; now apply rnd_no_skip).
  pose proof (Hmono 10 20 ltac:(lia))%Z as M1.
  pose proof (Hmono 20 50 ltac:(lia))%Z as M2.
  pose proof (Hmono 50 100 ltac:(lia))%Z as M3.
  pose proof (Hmono 100 200 ltac:(lia))%Z as M4.
  pose proof (Hmono 200 500 ltac:(lia))%Z as M5.
  pose proof (Hmono 500 1000 ltac:(lia))%Z as M6.
  pose proof (Hmono 1000 2000 ltac:(lia))%Z as M7.
  pose proof (Hskip 10 20 ltac:(lia) ltac:(lia))%Z as S1.
  pose proof (Hskip 20 50 ltac:(lia) ltac:(lia))%Z as S2.
  pose proof (Hskip 50 100 ltac:(lia) ltac:(lia))%Z as S3.
  pose proof (Hskip 100 200 ltac:(lia) ltac:(lia))%Z as S4.
  pose proof (Hskip 200 500 ltac:(lia) ltac:(lia))%Z as S5.
  pose proof (Hskip 500 1000 ltac:(lia) ltac:(lia))%Z as S6.
  pose proof (Hskip 1000 2000 ltac:(lia) ltac:(lia))%Z as S7.
  split; [|split; assumption].
  clear Hmono Hskip.
  unfold sm, scaleMeters, niceScales. cbn [nth]. unfold q in *.
  repeat (scan_cases_rnd r; try (exfalso; lra)).
  all: cbn [scan].
  all: repeat (first [ left; split; [lra | reflexivity]
                     | right ]); try (split; [lra | reflexivity]).
Qed.

Lemma niceScales_ratio :
  Forall (fun ab => (2 * snd ab <= 5 * fst ab)%Z)
         (combine niceScales (tl niceScales)).
Proof. unfold niceScales. cbn [tl combine]. repeat constructor; cbn; lia. Qed.

Lemma scaleMeters_In_rnd (r : R) : In (@scaleMeters xreal N (Fin r)) niceScales.
Proof.
  unfold scaleMeters.
  destruct (@scan_In xreal N (Fin r) niceScales (nth 0 niceScales 0%Z))
    as [E|E]; [rewrite <- E; now left | exact E].
Qed.

(** C9: consecutive candidates grow by a factor of at most 5/2.  With a
    division that rounds monotonically and keeps 60 and 160, at a
    positive meters-per-pixel value: if the pixel length of 10 is at most
    160 and that of 2000 at least 60, some candidate is readable and the
    loop returns a readable one; and if no candidate is readable, either
    every pixel length is below 60 or that of 10 is above 160. *)
Theorem readable_range_reached (r : R) :
  0 < r ->
  Forall (fun ab => (2 * snd ab <= 5 * fst ab)%Z)
         (combine niceScales (tl niceScales)) /\
  (@nle xreal N (@px xreal N (Fin r) 10) (@lit xreal N 160) = true ->
   @nge xreal N (@px xreal N (Fin r) 2000) (@lit xreal N 60) = true ->
   (exists m, In m niceScales /\
              @readable xreal N (@px xreal N (Fin r) m) = true) /\
   @readable xreal N
     (@px xreal N (Fin r) (@scaleMeters xreal N (Fin r))) = true) /\
  ((forall m, In m niceScales ->
              @readable xreal N (@px xreal N (Fin r) m) = false) ->
   (forall m, In m niceScales ->
              @short xreal N (@px xreal N (Fin r) m) = true) \/
   @nlt xreal N (@lit xreal N 160) (@px xreal N (Fin r) 10) = true).
Proof.
  intros Hr.
  destruct (scaleMeters_table r Hr) as (T & Hmono & Hskip).
  cbv zeta in T, Hmono, Hskip.
  pose proof (Hskip 10 20 ltac:(lia) ltac:(lia))%Z as S1.
  pose proof (Hskip 20 50 ltac:(lia) ltac:(lia))%Z as S2.
  pose proof (Hskip 50 100 ltac:(lia) ltac:(lia))%Z as S3.
  pose proof (Hskip 100 200 ltac:(lia) ltac:(lia))%Z as S4.
  pose proof (Hskip 200 500 ltac:(lia) ltac:(lia))%Z as S5.
  pose proof (Hskip 500 1000 ltac:(lia) ltac:(lia))%Z as S6.
  pose proof (Hskip 1000 2000 ltac:(lia) ltac:(lia))%Z as S7.
  assert (Hread : rnd (IZR 10 / r) <= 160 -> 60 <= rnd (IZR 2000 / r) ->
                  @readable xreal N
                    (@px xreal N (Fin r) (@scaleMeters xreal N (Fin r)))
                  = true).
  { intros H10 H2000. rewrite px_rnd by lra. apply readable_rnd.
    repeat (destruct T as [[B ->]|T]; [lra|]).
    destruct T as [B ->]. lra. }
  split; [exact niceScales_ratio|]. split.
  - intros H10 H2000. rewrite px_rnd in H10, H2000 by lra.
    apply Rleb_true in H10, H2000.
    split; [|now apply Hread].
    exists (@scaleMeters xreal N (Fin r)).
    split; [apply scaleMeters_In_rnd | now apply Hread].
  - intros Hno.
    destruct (Rle_lt_dec (rnd (IZR 10 / r)) 160) as [H10|H10].
    + destruct (Rle_lt_dec 60 (rnd (IZR 2000 / r))) as [H2000|H2000].
      * rewrite (Hno _ (scaleMeters_In_rnd r)) in Hread.
        specialize (Hread H10 H2000). discriminate.
      * left. intros m Hin. rewrite px_rnd by lra. apply short_rnd.
        assert (Hm : (0 <= m <= 2000)%Z)
          by (unfold niceScales in Hin; cbn [In] in Hin; lia).
        pose proof (Hmono m 2000%Z Hm). lra.
    + right. rewrite px_rnd by lra. now apply Rltb_true.
Qed.

(** X1: with such a division, at a positive meters-per-pixel value the
    loop returns the least candidate whose pixel length is at least 60
    when there is one, and 2000 when every pixel length is below 60. *)
Theorem scaleMeters_least_fitting (r : R) :
  0 < r ->
  ((exists m, In m niceScales /\
              @short xreal N (@px xreal N (Fin r) m) = false) ->
   @short xreal N
     (@px xreal N (Fin r) (@scaleMeters xreal N (Fin r))) = false /\
   forall m, In m niceScales ->
             @short xreal N (@px xreal N (Fin r) m) = false ->
             (@scaleMeters xreal N (Fin r) <= m)%Z) /\
  ((forall m, In m niceScales ->
              @short xreal N (@px xreal N (Fin r) m) = true) ->
   @scaleMeters xreal N (Fin r) = 2000%Z).
Proof.
  intros Hr.
  destruct (scaleMeters_table r Hr) as (T & Hmono & _).
  cbv zeta in T, Hmono.
  assert (Hns : forall m, @short xreal N (@px xreal N (Fin r) m) = false
                          <-> 60 <= rnd (IZR m / r)).
  { intros m. rewrite px_rnd by lra.
    rewrite <- not_true_iff_false, short_rnd. lra. }
  assert (Hs : forall m, @short xreal N (@px xreal N (Fin r) m) = true
                         <-> rnd (IZR m / r) < 60).
  { intros m. rewrite px_rnd by lra. apply short_rnd. }
  pose proof (Hmono 10 20 ltac:(lia))%Z as M1.
  pose proof (Hmono 20 50 ltac:(lia))%Z as M2.
  pose proof (Hmono 50 100 ltac:(lia))%Z as M3.
  pose proof (Hmono 100 200 ltac:(lia))%Z as M4.
  pose proof (Hmono 200 500 ltac:(lia))%Z as M5.
  pose proof (Hmono 500 1000 ltac:(lia))%Z as M6.
  pose proof (Hmono 1000 2000 ltac:(lia))%Z as M7.
  split.
  - intros (m0 & Hin0 & Hm0). apply Hns in Hm0.
    unfold niceScales in Hin0; cbn [In] in Hin0.
    split.
    + apply Hns.
      repeat (destruct T as [[B ->]|T]; [lra|]).
      destruct T as [B ->].
      repeat (destruct Hin0 as [<-|Hin0]; [lra|]). destruct Hin0.
    + intros m Hin Hm. apply Hns in Hm.
      unfold niceScales in Hin; cbn [In] in Hin.
      repeat (destruct T as [[B ->]|T];
              [repeat (destruct Hin as [<-|Hin]; [first [lia | lra]|]);
               destruct Hin|]).
      destruct T as [B ->].
      repeat (destruct Hin as [<-|Hin]; [first [lia | lra]|]); destruct Hin.
  - intros Hall.
    assert (H2000 : rnd (IZR 2000 / r) < 60).
    { apply Hs, Hall. unfold niceScales; cbn [In]; tauto. }
    repeat (destruct T as [[B E]|T]; [exfalso; lra|]).
    tauto.
Qed.

(** X2: with such a division, zooming out never selects a smaller
    distance: the candidate returned is monotone in a positive
    meters-per-pixel value. *)
Theorem scaleMeters_monotone (r1 r2 : R) :
  0 < r1 -> r1 <= r2 ->
  (@scaleMeters xreal N (Fin r1) <= @scaleMeters xreal N (Fin r2))%Z.
Proof.
  intros H1 H12.
  assert (H2 : 0 < r2) by lra.
  destruct (scaleMeters_table r1 H1) as (T1 & _ & _).
  destruct (scaleMeters_table r2 H2) as (T2 & _ & _).
  cbv zeta in T1, T2.
  assert (Hq : forall m, (0 <= m)%Z -> rnd (IZR m / r2) <= rnd (IZR m / r1))
    by (intros m Hm; apply rnd_px_le; [exact H1 | exact H12 | lia]).
  pose proof (Hq 10 ltac:(lia))%Z as Q1.
  pose proof (Hq 20 ltac:(lia))%Z as Q2.
  pose proof (Hq 50 ltac:(lia))%Z as Q3.
  pose proof (Hq 100 ltac:(lia))%Z as Q4.
  pose proof (Hq 200 ltac:(lia))%Z as Q5.
  pose proof (Hq 500 ltac:(lia))%Z as Q6.
  pose proof (Hq 1000 ltac:(lia))%Z as Q7.
  assert (Hm1 : forall a b, (0 <= a <= b)%Z ->
                            rnd (IZR a / r1) <= rnd (IZR b / r1))
    by (intros a b Hab; apply rnd_px_le; [exact H1 | lra | exact Hab]).
  pose proof (Hm1 10 20 ltac:(lia))%Z as M1.
  pose proof (Hm1 20 50 ltac:(lia))%Z as M2.
  pose proof (Hm1 50 100 ltac:(lia))%Z as M3.
  pose proof (Hm1 100 200 ltac:(lia))%Z as M4.
  pose proof (Hm1 200 500 ltac:(lia))%Z as M5.
  pose proof (Hm1 500 1000 ltac:(lia))%Z as M6.
  clear Hq Hm1.
  repeat (destruct T1 as [[B1 ->]|T1]);
    try (destruct T1 as [B1 ->]);
    repeat (destruct T2 as [[B2 ->]|T2]; [first [lia | exfalso; lra]|]);
    destruct T2 as [B2 ->]; first [lia | exfalso; lra].
Qed.

End RoundedScale.

Section RoundedWitnesses.

Import Exact.
Local Open Scope R_scope.

Lemma round_down_monotone (x y : R) :
  x <= y -> Rounded.round_down x <= Rounded.round_down y.
Proof.
  intros Hxy. unfold Rounded.round_down.
  destruct (base_Int_part x) as [Hx _]. destruct (base_Int_part y) as [_ Hy].
  apply IZR_le. apply Z.lt_succ_r. apply lt_IZR. rewrite succ_IZR. lra.
Qed.

Lemma round_down_IZR (z : Z) : Rounded.round_down (IZR z) = IZR z.
Proof.
  unfold Rounded.round_down. destruct (base_Int_part (IZR z)) as [H1 H2].
  f_equal. apply le_IZR in H1.
  assert (H3 : (z < Int_part (IZR z) + 1)%Z)
    by (apply lt_IZR; rewrite plus_IZR; lra).
  lia.
Qed.

Lemma round_down_over_1 (z : Z) : Rounded.round_down (IZR z / 1) = IZR z.
Proof. replace (IZR z / 1) with (IZR z) by lra. apply round_down_IZR. Qed.

Lemma readable_range_reached_witness :
  @readable xreal (Rounded.number Rounded.round_down)
    (@px xreal (Rounded.number Rounded.round_down) (Fin 1)
       (@scaleMeters xreal (Rounded.number Rounded.round_down) (Fin 1)))
  = true.
Proof.
  assert (Hr : 0 < 1) by lra.
  apply (proj1 (proj2 (readable_range_reached Rounded.round_down
                         round_down_monotone (round_down_IZR 60)
                         (round_down_IZR 160) 1 Hr))).
  - rewrite (px_rnd Rounded.round_down) by lra.
    rewrite round_down_over_1. apply Rleb_true. lra.
  - rewrite (px_rnd Rounded.round_down) by lra.
    rewrite round_down_over_1. apply Rleb_true. lra.
Defined.

Lemma scaleMeters_least_fitting_witness :
  @short xreal (Rounded.number Rounded.round_down)
    (@px xreal (Rounded.number Rounded.round_down) (Fin 1)
       (@scaleMeters xreal (Rounded.number Rounded.round_down) (Fin 1)))
  = false.
Proof.
  assert (Hr : 0 < 1) by lra.
  apply (proj1 (scaleMeters_least_fitting Rounded.round_down
                  round_down_monotone (round_down_IZR 60)
                  (round_down_IZR 160) 1 Hr)).
  exists 2000%Z. split.
  - unfold niceScales; cbn [In]; tauto.
  - rewrite (px_rnd Rounded.round_down) by lra.
    rewrite round_down_over_1.
    apply (short_rnd_false Rounded.round_down). lra.
Defined.

Lemma scaleMeters_monotone_witness :
  (@scaleMeters xreal (Rounded.number Rounded.round_down) (Fin 1)
   <= @scaleMeters xreal (Rounded.number Rounded.round_down) (Fin 2))%Z.
Proof.
  apply (scaleMeters_monotone Rounded.round_down round_down_monotone
           (round_down_IZR 60) (round_down_IZR 160) 1 2); lra.
Defined.

End RoundedWitnesses.
